(** * Mind-map editor core: tree utilities, AI schema adapter, history store

    A shallow embedding of the editor's state core (the reducer
    [mindMapReducer] with its helpers [findNodeById], [updateNodeRecursive],
    [deleteNodeRecursive], the two converters between [MindMapNode] and
    [AIMapNode], the handlers [handleAddChild] and [handleDeleteNode]) and of
    the three forest-producing calls of the Gemini service.

    Conventions.
    - A JavaScript array is a [list]; an optional field ([f?: T]) is an
      [option]; [string | null] is an [option string].
    - Objects are values: the reducer never mutates a forest that is reachable
      from the state (it copies first), so value equality is deep equality.
    - [number]s that index the history are [Z]; an out-of-range read of an
      array yields [undefined], modelled by [None].
    - A JavaScript exception is an explicit [Throws] result. *)

From Stdlib Require Import List ZArith String Bool Lia Permutation.
Import ListNotations.
Local Open Scope string_scope.
Local Open Scope list_scope.
Local Open Scope Z_scope.

(** ** Data model ([types.ts]) *)

Inductive MindMapNodeType := ROOT | MAIN_TOPIC | SUB_TOPIC | DETAIL.

Inductive MindMapMode := STUDY | PROJECT_PLANNING | DEBATE | GENERAL.

Inductive NodeStatus := StatusTask | StatusFlashcard | StatusSummary.

Record Flashcard := mkFlashcard { front : string; back : string }.

Record Task := mkTask {
  description : string;
  completed : bool;
  dueDate : option string
}.

Record Metadata := mkMetadata {
  pros : option (list string);
  cons : option (list string);
  questions : option (list string);
  flashcard : option Flashcard;
  summary : option string;
  task : option Task
}.

(** The object literal [{}]. *)
Definition emptyMetadata : Metadata :=
  mkMetadata None None None None None None.

#[warnings="-register-all"]
Inductive MindMapNode := mkNode {
  id : string;
  text : string;
  children : list MindMapNode;
  parentId : option string;
  isExpanded : bool;
  type : MindMapNodeType;
  tags : list string;
  status : option NodeStatus;
  metadata : option Metadata
}.

Definition Forest := list MindMapNode.

#[warnings="-register-all"]
Inductive AIMapNode := mkAI {
  title : string;
  subtopics : option (list AIMapNode);
  aiPros : option (list string);
  aiCons : option (list string);
  aiQuestions : option (list string)
}.

(** ** Induction over nested trees *)

Section NodeInd.
Variable P : MindMapNode -> Prop.
Hypothesis step : forall n, Forall P (children n) -> P n.

Fixpoint MindMapNode_nested_ind (n : MindMapNode) : P n :=
  step n
    ((fix go (l : list MindMapNode) : Forall P l :=
        match l with
        | [] => Forall_nil P
        | c :: cs => Forall_cons c (MindMapNode_nested_ind c) (go cs)
        end) (children n)).
End NodeInd.

(** Induction over a forest: the children of the head, then the tail. *)
Section ForestInd.
Variable P : Forest -> Prop.
Hypothesis Hnil : P [].
Hypothesis Hcons :
  forall node rest, P (children node) -> P rest -> P (node :: rest).

Fixpoint Forest_ind_children (node : MindMapNode) : P (children node) :=
  (fix go (l : list MindMapNode) : P l :=
     match l with
     | [] => Hnil
     | c :: cs => Hcons c cs (Forest_ind_children c) (go cs)
     end) (children node).

Fixpoint Forest_nested_ind (nodes : Forest) : P nodes :=
  match nodes with
  | [] => Hnil
  | c :: cs => Hcons c cs (Forest_ind_children c) (Forest_nested_ind cs)
  end.
End ForestInd.

Section AIInd.
Variable P : AIMapNode -> Prop.
Hypothesis step :
  forall a, (forall l, subtopics a = Some l -> Forall P l) -> P a.

Fixpoint AIMapNode_nested_ind (a : AIMapNode) : P a.
Proof.
  apply step. destruct a as [t s p c q]; simpl.
  intros l E. destruct s as [l'|]; [|discriminate].
  injection E as <-.
  induction l' as [|x xs IH]; constructor.
  - apply AIMapNode_nested_ind.
  - exact IH.
Defined.
End AIInd.

(** ** Record updates (object spread with one field replaced) *)

Definition set_children (n : MindMapNode) (cs : list MindMapNode) :=
  mkNode (id n) (text n) cs (parentId n) (isExpanded n) (type n) (tags n)
         (status n) (metadata n).

Definition set_text (n : MindMapNode) (t : string) :=
  mkNode (id n) t (children n) (parentId n) (isExpanded n) (type n) (tags n)
         (status n) (metadata n).

Definition set_isExpanded (n : MindMapNode) (b : bool) :=
  mkNode (id n) (text n) (children n) (parentId n) b (type n) (tags n)
         (status n) (metadata n).

Definition set_status (n : MindMapNode) (s : option NodeStatus) :=
  mkNode (id n) (text n) (children n) (parentId n) (isExpanded n) (type n)
         (tags n) s (metadata n).

Definition set_metadata (n : MindMapNode) (m : option Metadata) :=
  mkNode (id n) (text n) (children n) (parentId n) (isExpanded n) (type n)
         (tags n) (status n) m.

(** ** Tree utilities *)

(** [findNodeById]: depth-first, pre-order, first match. *)
Fixpoint findNodeById_node (target : string) (node : MindMapNode)
  : option MindMapNode :=
  if String.eqb (id node) target then Some node
  else
    (fix loop (l : list MindMapNode) : option MindMapNode :=
       match l with
       | [] => None
       | c :: cs =>
           match findNodeById_node target c with
           | Some found => Some found
           | None => loop cs
           end
       end) (children node).

Fixpoint findNodeById (nodes : Forest) (target : string) : option MindMapNode :=
  match nodes with
  | [] => None
  | node :: rest =>
      match findNodeById_node target node with
      | Some found => Some found
      | None => findNodeById rest target
      end
  end.

(** [updateNodeRecursive]: a matching node is copied and handed to [updateFn]
    (its children are not visited); any other node is copied with its
    children rewritten. The source's [updateFn] mutates the fresh copy; here
    it returns the mutated copy. *)
Fixpoint updateNode_node (target : string)
    (updateFn : MindMapNode -> MindMapNode) (node : MindMapNode) : MindMapNode :=
  if String.eqb (id node) target then updateFn node
  else set_children node (map (updateNode_node target updateFn) (children node)).

Definition updateNodeRecursive (nodes : Forest) (target : string)
    (updateFn : MindMapNode -> MindMapNode) : Forest :=
  map (updateNode_node target updateFn) nodes.

(** [deleteNodeRecursive]: [filter] then [map] at every level. The inner
    loop is [filter] fused with [map], which is what the termination check
    accepts; [deleteNode_node_eq] below restores the source's form. *)
Fixpoint deleteNode_node (target : string) (node : MindMapNode) : MindMapNode :=
  set_children node
    ((fix loop (l : list MindMapNode) : list MindMapNode :=
        match l with
        | [] => []
        | c :: cs =>
            if negb (String.eqb (id c) target)
            then deleteNode_node target c :: loop cs
            else loop cs
        end) (children node)).

Definition deleteNodeRecursive (nodes : Forest) (target : string) : Forest :=
  map (deleteNode_node target)
      (filter (fun node => negb (String.eqb (id node) target)) nodes).

(** [JSON.parse(JSON.stringify(nodes))]: every field of a node is a string, a
    boolean, [null], an array or a plain object, and an absent optional field
    stays absent, so the copy rebuilds the same value. *)
Fixpoint deepCopy_node (node : MindMapNode) : MindMapNode :=
  mkNode (id node) (text node) (map deepCopy_node (children node))
         (parentId node) (isExpanded node) (type node) (tags node)
         (status node) (metadata node).

Definition deepCopy (nodes : Forest) : Forest := map deepCopy_node nodes.

(** ** References into a forest

    [findNodeById] returns a reference to an object inside the forest, and
    the ADD_NODE case mutates that object in place. A forest fresh from
    [JSON.parse] shares nothing, so a reference is a position: the list of
    child indices leading to the node. [findNodePath] computes the position
    of the node that [findNodeById] returns ([findNodeById_by_path]). *)

Definition Path := list nat.

Fixpoint findPath_node (target : string) (node : MindMapNode) : option Path :=
  if String.eqb (id node) target then Some []
  else
    (fix loop (l : list MindMapNode) (i : nat) : option Path :=
       match l with
       | [] => None
       | c :: cs =>
           match findPath_node target c with
           | Some p => Some (i :: p)
           | None => loop cs (S i)
           end
       end) (children node) 0%nat.

Fixpoint findPath_from (nodes : Forest) (target : string) (i : nat)
  : option Path :=
  match nodes with
  | [] => None
  | node :: rest =>
      match findPath_node target node with
      | Some p => Some (i :: p)
      | None => findPath_from rest target (S i)
      end
  end.

Definition findNodePath (nodes : Forest) (target : string) : option Path :=
  findPath_from nodes target 0%nat.

Fixpoint nodeAt_node (node : MindMapNode) (p : Path) : option MindMapNode :=
  match p with
  | [] => Some node
  | i :: p' =>
      match nth_error (children node) i with
      | Some c => nodeAt_node c p'
      | None => None
      end
  end.

Definition nodeAt (nodes : Forest) (p : Path) : option MindMapNode :=
  match p with
  | [] => None
  | i :: p' =>
      match nth_error nodes i with
      | Some c => nodeAt_node c p'
      | None => None
      end
  end.

(** Replace the element at index [i] by its image under [g]; the list is
    unchanged when [i] is out of range. *)
Fixpoint list_alter {A} (g : A -> A) (i : nat) (l : list A) : list A :=
  match l, i with
  | [], _ => []
  | x :: xs, O => g x :: xs
  | x :: xs, S j => x :: list_alter g j xs
  end.

(** In-place mutation of the object at a position. *)
Fixpoint mutateAt_node (f : MindMapNode -> MindMapNode) (p : Path)
    (node : MindMapNode) : MindMapNode :=
  match p with
  | [] => f node
  | i :: p' => set_children node (list_alter (mutateAt_node f p') i (children node))
  end.

Definition mutateAt (f : MindMapNode -> MindMapNode) (p : Path)
    (nodes : Forest) : Forest :=
  match p with
  | [] => nodes
  | i :: p' => list_alter (mutateAt_node f p') i nodes
  end.

(** ** JavaScript array primitives used by the reducer *)

Definition js_length {A} (l : list A) : Z := Z.of_nat (List.length l).

(** [l[i]]: [undefined] outside [0 .. length-1]. *)
Definition js_get {A} (l : list A) (i : Z) : option A :=
  if i <? 0 then None else nth_error l (Z.to_nat i).

(** [l.slice(0, e)]: a negative [e] counts from the end; the bound is clamped
    to [0 .. length]. *)
Definition js_slice0 {A} (l : list A) (e : Z) : list A :=
  let len := js_length l in
  let final := if e <? 0 then Z.max (len + e) 0 else Z.min e len in
  firstn (Z.to_nat final) l.

Definition js_push {A} (l : list A) (x : A) : list A := l ++ [x].

(** ** The history-backed store ([mindMapReducer]) *)

Inductive JsError := TypeError | SyntaxError.

Inductive Result (A : Type) :=
| Ok (a : A)
| Throws (e : JsError).
Arguments Ok {A} a.
Arguments Throws {A} e.

(** [nodes] is declared [MindMapNode[]]; UNDO and REDO assign it the result
    of an indexed read, which is [undefined] ([None]) out of range. *)
Record MindMapState := mkState {
  nodes : option Forest;
  history : list Forest;
  historyPointer : Z
}.

Inductive MindMapAction :=
| SET_NODES (payload : Forest)
| ADD_NODE (parent : option string) (newNode : MindMapNode)
| UPDATE_NODE_TEXT (nodeId : string) (newText : string)
| DELETE_NODE (nodeId : string)
| TOGGLE_EXPAND (nodeId : string)
| UPDATE_NODE_METADATA (nodeId : string) (patch : Metadata)
                       (newStatus : option NodeStatus)
| UNDO
| REDO.

(** The tail shared by every mutating case:
    [newHistory = state.history.slice(0, state.historyPointer + 1);
     newHistory.push(newNodes);
     return { nodes: newNodes, history: newHistory,
              historyPointer: newHistory.length - 1 }]. *)
Definition pushSnapshot (state : MindMapState) (newNodes : Forest)
  : MindMapState :=
  let newHistory :=
    js_push (js_slice0 (history state) (historyPointer state + 1)) newNodes in
  mkState (Some newNodes) newHistory (js_length newHistory - 1).

(** [{ ...base, ...patch }] on metadata bags: a key of the patch wins. *)
Definition orElse {A} (x y : option A) : option A :=
  match x with Some _ => x | None => y end.

Definition mergeMetadata (base : option Metadata) (patch : Metadata)
  : Metadata :=
  let b := match base with Some m => m | None => emptyMetadata end in
  mkMetadata (orElse (pros patch) (pros b))
             (orElse (cons patch) (cons b))
             (orElse (questions patch) (questions b))
             (orElse (flashcard patch) (flashcard b))
             (orElse (summary patch) (summary b))
             (orElse (task patch) (task b)).

(** The three [updateFn] closures of the reducer. *)
Definition updateText (newText : string) (node : MindMapNode) : MindMapNode :=
  set_text node newText.

Definition toggleExpand (node : MindMapNode) : MindMapNode :=
  set_isExpanded node (negb (isExpanded node)).

Definition updateMetadata (patch : Metadata) (newStatus : option NodeStatus)
    (node : MindMapNode) : MindMapNode :=
  let node1 := set_metadata node (Some (mergeMetadata (metadata node) patch)) in
  match newStatus with
  | Some s => set_status node1 (Some s)
  | None => node1
  end.

(** The mutation ADD_NODE performs on the parent it found. *)
Definition receiveChild (newNode : MindMapNode) (parentNode : MindMapNode)
  : MindMapNode :=
  set_isExpanded (set_children parentNode (js_push (children parentNode) newNode))
                 true.

(** The forest ADD_NODE builds from the (copied) current forest. *)
Definition addNode (current : Forest) (parent : option string)
    (newNode : MindMapNode) : Forest :=
  let newNodes := deepCopy current in
  match parent with
  | None => js_push newNodes newNode
  | Some pid =>
      match findNodePath newNodes pid with
      | Some p => mutateAt (receiveChild newNode) p newNodes
      | None => newNodes
      end
  end.

Definition mindMapReducer (state : MindMapState) (action : MindMapAction)
  : Result MindMapState :=
  match action with
  | SET_NODES payload => Ok (pushSnapshot state payload)
  | ADD_NODE parent newNode =>
      match nodes state with
      | None => Throws SyntaxError   (* JSON.parse(undefined) *)
      | Some current => Ok (pushSnapshot state (addNode current parent newNode))
      end
  | UPDATE_NODE_TEXT nodeId newText =>
      match nodes state with
      | None => Throws TypeError     (* undefined.map *)
      | Some current =>
          Ok (pushSnapshot state
                (updateNodeRecursive current nodeId (updateText newText)))
      end
  | DELETE_NODE nodeId =>
      match nodes state with
      | None => Throws TypeError     (* undefined.filter *)
      | Some current =>
          Ok (pushSnapshot state (deleteNodeRecursive current nodeId))
      end
  | TOGGLE_EXPAND nodeId =>
      match nodes state with
      | None => Throws TypeError
      | Some current =>
          Ok (pushSnapshot state
                (updateNodeRecursive current nodeId toggleExpand))
      end
  | UPDATE_NODE_METADATA nodeId patch newStatus =>
      match nodes state with
      | None => Throws TypeError
      | Some current =>
          Ok (pushSnapshot state
                (updateNodeRecursive current nodeId
                   (updateMetadata patch newStatus)))
      end
  | UNDO =>
      let newHistoryPointer := Z.max 0 (historyPointer state - 1) in
      Ok (mkState (js_get (history state) newHistoryPointer)
                  (history state) newHistoryPointer)
  | REDO =>
      let newHistoryPointer :=
        Z.min (js_length (history state) - 1) (historyPointer state + 1) in
      Ok (mkState (js_get (history state) newHistoryPointer)
                  (history state) newHistoryPointer)
  end.

(** The initial state handed to [useReducer]. *)
Definition initialState : MindMapState := mkState (Some []) [] (-1).

(** Actions that push a snapshot (all but UNDO and REDO). *)
Definition isMutating (action : MindMapAction) : bool :=
  match action with
  | UNDO | REDO => false
  | _ => true
  end.

(** ** AI schema adapter

    [uuidv4()] draws from an external source of identifiers: [uuidv4 k] is
    the [k]-th identifier drawn, and every function that draws threads the
    counter. *)

Definition IdSource := nat -> string.

Definition nodeTypeOfLevel (level : nat) : MindMapNodeType :=
  match level with
  | 0%nat => MAIN_TOPIC
  | 1%nat => SUB_TOPIC
  | _ => DETAIL
  end.

(** The metadata bag the import builds: [{}], then pros and cons when both
    are present on the AI node, then questions when present. An array is
    truthy even when empty, so presence is being [Some]. *)
Definition importMetadata (aiNode : AIMapNode) : Metadata :=
  let m0 := emptyMetadata in
  let m1 :=
    match aiPros aiNode, aiCons aiNode with
    | Some p, Some c =>
        mkMetadata (Some p) (Some c) (questions m0) (flashcard m0)
                   (summary m0) (task m0)
    | _, _ => m0
    end in
  match aiQuestions aiNode with
  | Some q =>
      mkMetadata (pros m1) (cons m1) (Some q) (flashcard m1) (summary m1)
                 (task m1)
  | None => m1
  end.

(** Import: the node's own id is drawn first, then the subtopics are
    converted left to right. *)
Fixpoint convertAIMapNodeToMindMapNode (uuidv4 : IdSource) (aiNode : AIMapNode)
    (parent : option string) (level : nat) (k : nat) : MindMapNode * nat :=
  let nodeType := nodeTypeOfLevel level in
  let nid := uuidv4 k in
  let convertAll :=
    fix convertAll (l : list AIMapNode) (k : nat) : list MindMapNode * nat :=
      match l with
      | [] => ([], k)
      | subNode :: rest =>
          let (c, k1) :=
            convertAIMapNodeToMindMapNode uuidv4 subNode (Some nid) (S level) k in
          let (cs, k2) := convertAll rest k1 in
          (c :: cs, k2)
      end in
  let (cs, k') :=
    match subtopics aiNode with
    | Some l => convertAll l (S k)
    | None => ([], S k)
    end in
  (mkNode nid (title aiNode) cs parent true nodeType [] None
          (Some (importMetadata aiNode)), k').

(** [aiResponse.map.map(aiNode => convertAIMapNodeToMindMapNode(aiNode, null, 0))]
    generalised to any parent and level. *)
Fixpoint importAll (uuidv4 : IdSource) (l : list AIMapNode)
    (parent : option string) (level : nat) (k : nat) : Forest * nat :=
  match l with
  | [] => ([], k)
  | aiNode :: rest =>
      let (c, k1) := convertAIMapNodeToMindMapNode uuidv4 aiNode parent level k in
      let (cs, k2) := importAll uuidv4 rest parent level k1 in
      (c :: cs, k2)
  end.

Definition isPresent {A} (x : option A) : bool :=
  match x with Some _ => true | None => false end.

(** Export. *)
Fixpoint convertMindMapNodeToAIMapNode (node : MindMapNode) : AIMapNode :=
  let subs := map convertMindMapNodeToAIMapNode (children node) in
  let prosOrCons :=
    match metadata node with
    | Some m => isPresent (pros m) || isPresent (cons m)
    | None => false
    end in
  let hasQuestions :=
    match metadata node with
    | Some m => isPresent (questions m)
    | None => false
    end in
  mkAI (text node) (Some subs)
       (if prosOrCons
        then match metadata node with Some m => pros m | None => None end
        else None)
       (if prosOrCons
        then match metadata node with Some m => cons m | None => None end
        else None)
       (if hasQuestions
        then match metadata node with Some m => questions m | None => None end
        else None).

(** ** Editor session ([App]) *)

Record Session := mkSession {
  store : MindMapState;
  selectedNode : option MindMapNode;
  drawn : nat     (* identifiers drawn from [uuidv4] so far *)
}.

Definition dispatch (s : Session) (action : MindMapAction) : Result Session :=
  match mindMapReducer (store s) action with
  | Ok st => Ok (mkSession st (selectedNode s) (drawn s))
  | Throws e => Throws e
  end.

(** The node [handleAddChild] builds. *)
Definition newIdea (nid : string) (parent : string) : MindMapNode :=
  mkNode nid "New Idea" [] (Some parent) true DETAIL [] None None.

Definition handleAddChild (uuidv4 : IdSource) (s : Session) (parent : string)
  : Result Session :=
  let newNode := newIdea (uuidv4 (drawn s)) parent in
  dispatch (mkSession (store s) (selectedNode s) (S (drawn s)))
           (ADD_NODE (Some parent) newNode).

Definition handleSelectNode (s : Session) (node : option MindMapNode)
  : Session :=
  mkSession (store s) node (drawn s).

(** [selectedNode?.id === nodeId] *)
Definition selectedHasId (sel : option MindMapNode) (nodeId : string) : bool :=
  match sel with
  | Some n => String.eqb (id n) nodeId
  | None => false
  end.

Definition handleDeleteNode (s : Session) (nodeId : string) : Result Session :=
  match dispatch s (DELETE_NODE nodeId) with
  | Ok s1 =>
      if selectedHasId (selectedNode s) nodeId
      then Ok (mkSession (store s1) None (drawn s1))
      else Ok s1
  | Throws e => Throws e
  end.

(** Depth of the first node (in [findNodeById]'s order) carrying an id; roots
    have depth 0. *)
Definition depthOf (nodes : Forest) (target : string) : option nat :=
  match findNodePath nodes target with
  | Some p => Some (Nat.pred (List.length p))
  | None => None
  end.

(** ** The forest-producing calls of [geminiService.ts]

    The remote model is an external collaborator: [ai n req] is what the
    [n]-th [generateContent] call of one service function yields for request
    [req], either the response's [text] (possibly [undefined]) or an
    exception. [JSON.parse] is a parameter; [None] stands for its
    [SyntaxError]. Each service function returns its outcome together with
    the requests it sent, in order. Building the client is taken not to
    fail. *)

Record AIMindMapOutput := mkOutput { aiMap : option (list AIMapNode) }.

Record Request := mkRequest {
  model : string;
  contents : string;
  systemInstruction : option string;
  responseSchemaMode : MindMapMode;   (* getResponseSchemaForMode(mode) *)
  maxOutputTokens : Z;
  thinkingBudget : option Z
}.

Definition Collaborator := nat -> Request -> Result (option string).

Definition GEMINI_PRO_MODEL := "gemini-2.5-pro".
Definition GEMINI_FLASH_MODEL := "gemini-2.5-flash".
Definition AI_THINKING_BUDGET_PRO := 32768.
Definition MAX_OUTPUT_TOKENS := 2000.

Definition dq : string := String (Ascii.ascii_of_nat 34) EmptyString.
Definition nl : string := String (Ascii.ascii_of_nat 10) EmptyString.

Local Notation "a +++ b" := (String.append a b)
  (at level 60, right associativity).

Definition getModelForMode (mode : MindMapMode) : string :=
  match mode with
  | STUDY | PROJECT_PLANNING | DEBATE => GEMINI_PRO_MODEL
  | GENERAL => GEMINI_FLASH_MODEL
  end.

(** A string is truthy when it is not empty. *)
Definition truthyText (t : option string) : option string :=
  match t with
  | Some s => if String.eqb s "" then None else Some s
  | None => None
  end.

Definition baseInstruction : string :=
  "You are an expert mind map generator. Your task is to extract key concepts and their relationships from the provided content and represent them as a hierarchical mind map in JSON format. Each node should have a 'title' (the concept's title) and an optional 'subtopics' array (containing more nested nodes, each with 'title' and 'subtopics'). Focus on creating a logical, organized, and concise structure, making sure the hierarchy is clear. Aim for 2-3 levels of depth initially. Do not include any other text or explanation, only the JSON.".

Definition getSystemInstructionForMode (mode : MindMapMode)
    (existingMapJson : option string) : string :=
  let base :=
    match truthyText existingMapJson with
    | Some j =>
        baseInstruction +++ nl +++ nl +++ "Existing Mind Map Context: " +++ j
        +++ nl +++ nl +++
        "Based on the user's new input and the existing map, either add new relevant concepts, refine existing ones, or adjust the structure to better integrate the new information. Ensure consistency with the existing map's structure where appropriate."
    | None => baseInstruction
    end in
  match mode with
  | STUDY =>
      base +++ " For 'STUDY' mode, prioritize terms, definitions, key theories, and relationships that facilitate learning and memorization."
  | PROJECT_PLANNING =>
      base +++ " For 'PROJECT PLANNING' mode, identify tasks, milestones, deliverables, resources, and dependencies."
  | DEBATE =>
      base +++ " For 'DEBATE' mode, identify main arguments, counter-arguments, key points, and potential questions. For each main argument, include 'pros' and 'cons' arrays."
  | GENERAL =>
      base +++ " For 'GENERAL' mode, provide a balanced overview of the main concepts."
  end.

Definition mapFormat : string :=
  "{ " +++ dq +++ "map" +++ dq +++ ": [{ " +++ dq +++ "title" +++ dq +++ ": "
  +++ dq +++ "..." +++ dq +++ ", " +++ dq +++ "subtopics" +++ dq
  +++ ": [...] }] }".

Definition refineInstruction : string :=
  "You are a mind map refinement expert. Given the current mind map structure (in JSON) and new input, integrate the new input into the existing map. This could involve adding new nodes, merging duplicate ideas, or adjusting the hierarchy for better clarity and organization. If there are obvious duplicates in the current map based on the new input, suggest merging them by providing a refined structure where they are combined. The output MUST be a complete, refined JSON mind map structure, following the format: "
  +++ mapFormat +++ ". Do not lose any relevant existing information.".

Definition mergeInstruction : string :=
  "You are a mind map optimization expert. Review the provided mind map structure (in JSON) and identify any duplicate or highly redundant ideas/nodes. Consolidate these into single, well-phrased nodes, ensuring all important information is retained. The output MUST be a complete, refined JSON mind map structure with duplicates merged, following the format: "
  +++ mapFormat +++ ". Only output the JSON.".

Definition currentMapBlock (mapNodes : string) : string :=
  "Current Mind Map:" +++ nl +++ "```json" +++ nl +++ mapNodes +++ nl
  +++ "```" +++ nl +++ nl.

(** The corrective prompt of the fallback. *)
Definition reformatRequest (mode : MindMapMode) (text : string) : Request :=
  mkRequest (getModelForMode mode)
    ("Re-format this text into a clean JSON array of {title: string, subtopics: array} mind map structure: "
     +++ text)
    None mode MAX_OUTPUT_TOKENS None.

Section GeminiService.
Variable ai : Collaborator.
Variable JSON_parse : string -> option AIMindMapOutput.

Definition generateRequest (inputContent : string) (mode : MindMapMode)
    (existingMapJson : option string) : Request :=
  mkRequest (getModelForMode mode) inputContent
    (Some (getSystemInstructionForMode mode existingMapJson))
    mode MAX_OUTPUT_TOKENS (Some AI_THINKING_BUDGET_PRO).

(** An exception of either [generateContent] call reaches the outer
    [catch], which rethrows it. *)
Definition generateMindMapStructure (inputContent : string)
    (mode : MindMapMode) (existingMapJson : option string)
  : Result (option AIMindMapOutput) * list Request :=
  let req := generateRequest inputContent mode existingMapJson in
  match ai 0%nat req with
  | Throws e => (Throws e, [req])
  | Ok response =>
      match truthyText response with
      | None => (Ok None, [req])
      | Some text =>
          match JSON_parse text with
          | Some parsedJson => (Ok (Some parsedJson), [req])
          | None =>
              let req2 := reformatRequest mode text in
              match ai 1%nat req2 with
              | Throws e => (Throws e, [req; req2])
              | Ok simplifiedResponse =>
                  match truthyText simplifiedResponse with
                  | None => (Ok None, [req; req2])
                  | Some text2 =>
                      match JSON_parse text2 with
                      | Some parsed2 => (Ok (Some parsed2), [req; req2])
                      | None => (Ok None, [req; req2])
                      end
                  end
              end
          end
      end
  end.

(** [return response.text ? JSON.parse(response.text) : null] inside a
    [try] whose [catch] returns [null]. *)
Definition parseOrNull (req : Request)
  : Result (option AIMindMapOutput) * list Request :=
  match ai 0%nat req with
  | Throws _ => (Ok None, [req])
  | Ok response =>
      match truthyText response with
      | None => (Ok None, [req])
      | Some text =>
          match JSON_parse text with
          | Some parsedJson => (Ok (Some parsedJson), [req])
          | None => (Ok None, [req])
          end
      end
  end.

Definition refineRequest (mapNodes newInput : string) (mode : MindMapMode)
  : Request :=
  mkRequest (getModelForMode mode)
    (currentMapBlock mapNodes +++ "New Input: " +++ dq +++ newInput +++ dq
     +++ nl +++ nl +++ "Refined Mind Map:")
    (Some refineInstruction) mode MAX_OUTPUT_TOKENS
    (Some AI_THINKING_BUDGET_PRO).

Definition refineMindMapStructure (mapNodes newInput : string)
    (mode : MindMapMode) : Result (option AIMindMapOutput) * list Request :=
  parseOrNull (refineRequest mapNodes newInput mode).

Definition mergeRequest (mapNodes : string) (mode : MindMapMode) : Request :=
  mkRequest (getModelForMode mode)
    (currentMapBlock mapNodes
     +++ "Merge duplicate ideas in this mind map. Refined Mind Map:")
    (Some mergeInstruction) mode MAX_OUTPUT_TOKENS
    (Some AI_THINKING_BUDGET_PRO).

Definition mergeDuplicateIdeas (mapNodes : string) (mode : MindMapMode)
  : Result (option AIMindMapOutput) * list Request :=
  parseOrNull (mergeRequest mapNodes mode).

(** *** The handlers of [App] that feed an AI forest into the store *)

Variable uuidv4 : IdSource.
Variable JSON_stringify : AIMindMapOutput -> string.

(** [if (aiResponse && aiResponse.map) { ... SET_NODES ... } else alert];
    an exception of the service call is caught and reported, too. *)
Definition applyAIResponse (s : Session)
    (r : Result (option AIMindMapOutput)) : Session :=
  match r with
  | Ok (Some aiResponse) =>
      match aiMap aiResponse with
      | Some l =>
          let (newRootNodes, k) := importAll uuidv4 l None 0%nat (drawn s) in
          mkSession (pushSnapshot (store s) newRootNodes) (selectedNode s) k
      | None => s
      end
  | _ => s
  end.

Definition handleGenerateMindMap (s : Session) (input : string)
    (mode : MindMapMode) : Session * list Request :=
  let s0 := handleSelectNode s None in
  let (r, sent) := generateMindMapStructure input mode None in
  (applyAIResponse s0 r, sent).

(** [JSON.stringify({ map: mindMapNodes.map(convertMindMapNodeToAIMapNode) })];
    with [nodes] undefined the [map] call throws inside the [try]. *)
Definition currentMapForAI (s : Session) : option string :=
  match nodes (store s) with
  | Some current =>
      Some (JSON_stringify
              (mkOutput (Some (map convertMindMapNodeToAIMapNode current))))
  | None => None
  end.

Definition handleUpdateMindMap (s : Session) (input : string)
    (mode : MindMapMode) : Session * list Request :=
  match currentMapForAI s with
  | Some j =>
      let (r, sent) := refineMindMapStructure j input mode in
      (applyAIResponse s r, sent)
  | None => (s, [])
  end.

Definition handleAutoRefine (s : Session) (mode : MindMapMode)
  : Session * list Request :=
  handleUpdateMindMap s "" mode.

Definition handleMergeDuplicates (s : Session) (mode : MindMapMode)
  : Session * list Request :=
  match currentMapForAI s with
  | Some j =>
      let (r, sent) := mergeDuplicateIdeas j mode in
      (applyAIResponse s r, sent)
  | None => (s, [])
  end.
End GeminiService.

(** ** Notions the properties are stated with *)

(** The ids of a forest, in pre-order. *)
Fixpoint ids_node (node : MindMapNode) : list string :=
  id node :: flat_map ids_node (children node).

Definition ids (nodes : Forest) : list string := flat_map ids_node nodes.

(** A node without its children: everything the node itself carries. *)
Definition content (node : MindMapNode) : MindMapNode := set_children node [].

(** Pre-order listing of a forest, each node's content with its depth. The
    listing determines the forest ([flatten_inj]). *)
Fixpoint flatten_node (d : nat) (node : MindMapNode)
  : list (nat * MindMapNode) :=
  (d, content node) :: flat_map (flatten_node (S d)) (children node).

Definition flatten (d : nat) (nodes : Forest) : list (nat * MindMapNode) :=
  flat_map (flatten_node d) nodes.

(** Deletion as the specification words it, on the listing: an entry with
    the target id is removed together with its descendants, which are the
    entries that follow it at a greater depth; every other entry is kept as
    it is, in place. [skip] is the depth of the removed entry whose
    descendants are being passed over. *)
Fixpoint pruneFrom (target : string) (skip : option nat)
    (l : list (nat * MindMapNode)) : list (nat * MindMapNode) :=
  match l with
  | [] => []
  | (d, c) :: rest =>
      let inside :=
        match skip with Some d0 => Nat.ltb d0 d | None => false end in
      if inside then pruneFrom target skip rest
      else if String.eqb (id c) target then pruneFrom target (Some d) rest
      else (d, c) :: pruneFrom target None rest
  end.

Definition prune (target : string) (l : list (nat * MindMapNode)) :=
  pruneFrom target None l.

(** Depth, id and type of every node, in pre-order. *)
Definition typeSkeleton (nodes : Forest)
  : list (nat * string * MindMapNodeType) :=
  map (fun e => (fst e, id (snd e), type (snd e))) (flatten 0 nodes).

(** The states the store can be in: whatever the reducer produces from the
    initial state. *)
Inductive reachable : MindMapState -> Prop :=
| reachable_init : reachable initialState
| reachable_step s action s' :
    reachable s -> mindMapReducer s action = Ok s' -> reachable s'.

(** The forest an action leaves when it does not throw. *)
Definition nodesAfter (r : Result MindMapState) : option Forest :=
  match r with
  | Ok s => nodes s
  | Throws _ => None
  end.

(** An AI tree with an absent [subtopics] written as the empty array: the
    same titles, pros, cons and questions on the same tree. *)
Fixpoint canonical (a : AIMapNode) : AIMapNode :=
  mkAI (title a)
       (Some (match subtopics a with
              | Some l => map canonical l
              | None => []
              end))
       (aiPros a) (aiCons a) (aiQuestions a).

(** What survives import followed by export: pros and cons are kept on a
    node that has both, and dropped from a node that has only one. *)
Fixpoint roundTripImage (a : AIMapNode) : AIMapNode :=
  let both := isPresent (aiPros a) && isPresent (aiCons a) in
  mkAI (title a)
       (Some (match subtopics a with
              | Some l => map roundTripImage l
              | None => []
              end))
       (if both then aiPros a else None)
       (if both then aiCons a else None)
       (aiQuestions a).

(** [skip] no longer hides anything at depth [d]. *)
Definition inactive (skip : option nat) (d : nat) : Prop :=
  match skip with
  | Some d0 => (d <= d0)%nat
  | None => True
  end.

(** The listing determines the forest. *)
Definition lowHead (d : nat) (r : list (nat * MindMapNode)) : Prop :=
  match r with
  | [] => True
  | e :: _ => (fst e < d)%nat
  end.

(** The forest a mutating action computes from the current one. *)
Definition applyMutation (current : Forest) (action : MindMapAction) : Forest :=
  match action with
  | SET_NODES payload => payload
  | ADD_NODE parent newNode => addNode current parent newNode
  | UPDATE_NODE_TEXT nodeId newText =>
      updateNodeRecursive current nodeId (updateText newText)
  | DELETE_NODE nodeId => deleteNodeRecursive current nodeId
  | TOGGLE_EXPAND nodeId => updateNodeRecursive current nodeId toggleExpand
  | UPDATE_NODE_METADATA nodeId patch newStatus =>
      updateNodeRecursive current nodeId (updateMetadata patch newStatus)
  | UNDO | REDO => current
  end.

(** The pointer is a valid index into the history. *)
Definition validPointer (s : MindMapState) : Prop :=
  0 <= historyPointer s < js_length (history s).

(** What holds of every state the store can be in. *)
Definition storeInvariant (s : MindMapState) : Prop :=
  -1 <= historyPointer s /\
  (history s <> [] ->
   validPointer s /\ nodes s = js_get (history s) (historyPointer s)).

(** ** The rest of the editor session

    The handlers of [App] that act on one node, the single-node calls of the
    Gemini service they use, the history buttons and the effect that seeds
    the history. *)

(** [canUndo={historyPointer > 0}] and
    [canRedo={historyPointer < history.length - 1}]: the Undo and Redo
    buttons are disabled when these are false. *)
Definition canUndo (s : MindMapState) : bool := 0 <? historyPointer s.

Definition canRedo (s : MindMapState) : bool :=
  historyPointer s <? js_length (history s) - 1.

(** The effect of the first render: with an empty history and an empty
    forest it dispatches [SET_NODES []]. Its dependency array reads
    [mindMapNodes.length], which throws when [nodes] is undefined. *)
Definition initializeHistory (s : MindMapState) : Result MindMapState :=
  match nodes s with
  | None => Throws TypeError
  | Some current =>
      if (js_length (history s) =? 0) && (js_length current =? 0)
      then mindMapReducer s (SET_NODES [])
      else Ok s
  end.

(** A sequence of dispatches; the first exception ends it. *)
Fixpoint runActions (s : MindMapState) (actions : list MindMapAction)
  : Result MindMapState :=
  match actions with
  | [] => Ok s
  | action :: rest =>
      match mindMapReducer s action with
      | Ok s' => runActions s' rest
      | Throws e => Throws e
      end
  end.

Definition handleUpdateNodeText (s : Session) (nodeId newText : string)
  : Result Session :=
  dispatch s (UPDATE_NODE_TEXT nodeId newText).

Definition handleToggleExpand (s : Session) (nodeId : string) : Result Session :=
  dispatch s (TOGGLE_EXPAND nodeId).

(** *** Single-node calls of [geminiService.ts] *)

Inductive NodeSchema :=
| AI_FLASHCARD_SCHEMA
| AI_SUMMARY_SCHEMA
| AI_PROS_CONS_SCHEMA
| AI_QUESTIONS_SCHEMA.

Record NodeRequest := mkNodeRequest {
  nrModel : string;
  nrContents : string;
  nrSystemInstruction : string;
  nrResponseSchema : NodeSchema;
  nrMaxOutputTokens : Z
}.

Definition NodeCollaborator := NodeRequest -> Result (option string).

Definition SHORT_OUTPUT_TOKENS := 500.

Record AISummaryOutput := mkSummaryOutput { summaryText : string }.


Record AIQuestionsOutput := mkQuestionsOutput {
  outQuestions : option (list string)
}.

Definition flashcardRequest (nodeText : string) : NodeRequest :=
  mkNodeRequest GEMINI_FLASH_MODEL
    ("Generate a single flashcard (question and answer) for the following concept: "
     +++ dq +++ nodeText +++ dq)
    "You are a study assistant. Generate a concise flashcard in JSON format with 'front' (question) and 'back' (answer) properties. Only output the JSON."
    AI_FLASHCARD_SCHEMA SHORT_OUTPUT_TOKENS.

Definition summaryRequest (nodeText : string) : NodeRequest :=
  mkNodeRequest GEMINI_FLASH_MODEL
    ("Summarize the following concept concisely: " +++ dq +++ nodeText +++ dq)
    "You are a summarization expert. Provide a concise summary of the given concept in JSON format with a 'summary' property. Only output the JSON."
    AI_SUMMARY_SCHEMA SHORT_OUTPUT_TOKENS.


Definition questionsRequest (topicText : string) : NodeRequest :=
  mkNodeRequest GEMINI_PRO_MODEL
    ("Generate 3-5 clarifying and expanding questions for the concept: "
     +++ dq +++ topicText +++ dq)
    "You are a critical thinking assistant. Generate a list of clarifying or expanding questions for the given concept in JSON format with a 'questions' array. Only output the JSON."
    AI_QUESTIONS_SCHEMA SHORT_OUTPUT_TOKENS.

(** [return response.text ? JSON.parse(response.text) : null] inside a
    [try] whose [catch] returns [null]. [parse t] is [None] when
    [JSON.parse] throws, [Some None] when it yields a falsy value (which the
    callers treat as [null]) and [Some (Some v)] for a value, taken at its
    declared type. *)
Definition askOrNull {T : Type} (ask : NodeCollaborator)
    (parse : string -> option (option T)) (req : NodeRequest)
  : option T * list NodeRequest :=
  match ask req with
  | Throws _ => (None, [req])
  | Ok response =>
      match truthyText response with
      | None => (None, [req])
      | Some responseText =>
          match parse responseText with
          | Some parsed => (parsed, [req])
          | None => (None, [req])
          end
      end
  end.

Definition generateFlashcard (ask : NodeCollaborator)
    (parse : string -> option (option Flashcard)) (nodeText : string) :=
  askOrNull ask parse (flashcardRequest nodeText).

Definition generateSummary (ask : NodeCollaborator)
    (parse : string -> option (option AISummaryOutput)) (nodeText : string) :=
  askOrNull ask parse (summaryRequest nodeText).


Definition generateClarifyingQuestions (ask : NodeCollaborator)
    (parse : string -> option (option AIQuestionsOutput)) (topicText : string) :=
  askOrNull ask parse (questionsRequest topicText).

(** *** [handleConvertNode] and [handleGenerateClarifyingQuestions] *)

Inductive ConvertKind := ToTask | ToFlashcard | ToSummary.

(** What the user is shown at the end of a handler. *)
Inductive Feedback :=
| ShowModal
| Alert (message : string)
| NoFeedback.

Definition flashcardPatch (card : Flashcard) : Metadata :=
  mkMetadata None None None (Some card) None None.

Definition summaryPatch (s : string) : Metadata :=
  mkMetadata None None None None (Some s) None.

Definition taskPatch (t : Task) : Metadata :=
  mkMetadata None None None None None (Some t).

Definition questionsPatch (q : list string) : Metadata :=
  mkMetadata None None (Some q) None None None.

(** [{ description: `Complete "${node.text}"`, completed: false,
       dueDate: undefined }] *)
Definition taskDetails (node : MindMapNode) : Task :=
  mkTask ("Complete " +++ dq +++ text node +++ dq) false None.

Definition dispatchThen (s : Session) (action : MindMapAction)
    (sent : list NodeRequest)
  : Result (Session * list NodeRequest * Feedback) :=
  match dispatch s action with
  | Ok s' => Ok (s', sent, ShowModal)
  | Throws e => Throws e
  end.

Section NodeActions.
Variable ask : NodeCollaborator.
Variable parseFlashcard : string -> option (option Flashcard).
Variable parseSummary : string -> option (option AISummaryOutput).
Variable parseQuestions : string -> option (option AIQuestionsOutput).

(** [findNodeById(mindMapNodes, nodeId)] runs before the [try]: it throws
    when [nodes] is undefined, and a miss returns without any dispatch. *)
Definition handleConvertNode (s : Session) (nodeId : string)
    (kind : ConvertKind) : Result (Session * list NodeRequest * Feedback) :=
  match nodes (store s) with
  | None => Throws TypeError
  | Some current =>
      match findNodeById current nodeId with
      | None => Ok (s, [], NoFeedback)
      | Some node =>
          match kind with
          | ToFlashcard =>
              let (result, sent) :=
                generateFlashcard ask parseFlashcard (text node) in
              match result with
              | Some card =>
                  dispatchThen s
                    (UPDATE_NODE_METADATA nodeId (flashcardPatch card)
                       (Some StatusFlashcard)) sent
              | None => Ok (s, sent, Alert "Failed to generate flashcard.")
              end
          | ToSummary =>
              let (result, sent) :=
                generateSummary ask parseSummary (text node) in
              match result with
              | Some out =>
                  dispatchThen s
                    (UPDATE_NODE_METADATA nodeId
                       (summaryPatch (summaryText out)) (Some StatusSummary))
                    sent
              | None => Ok (s, sent, Alert "Failed to generate summary.")
              end
          | ToTask =>
              dispatchThen s
                (UPDATE_NODE_METADATA nodeId (taskPatch (taskDetails node))
                   (Some StatusTask)) []
          end
      end
  end.

Definition handleGenerateClarifyingQuestions (s : Session) (nodeId : string)
  : Result (Session * list NodeRequest * Feedback) :=
  match nodes (store s) with
  | None => Throws TypeError
  | Some current =>
      match findNodeById current nodeId with
      | None => Ok (s, [], NoFeedback)
      | Some node =>
          let (result, sent) :=
            generateClarifyingQuestions ask parseQuestions (text node) in
          match result with
          | Some out =>
              match outQuestions out with
              | Some q =>
                  dispatchThen s
                    (UPDATE_NODE_METADATA nodeId (questionsPatch q) None) sent
              | None =>
                  Ok (s, sent, Alert "Failed to generate clarifying questions.")
              end
          | None =>
              Ok (s, sent, Alert "Failed to generate clarifying questions.")
          end
      end
  end.
End NodeActions.

(** *** The response schema ([constants.ts], [getResponseSchemaForMode])

    A schema is a JSON value built from strings, arrays and objects; an
    object keeps its keys in insertion order. *)

#[warnings="-register-all"]
Inductive Json :=
| JString (s : string)
| JArray (items : list Json)
| JObject (fields : list (string * Json)).

Fixpoint lookupField (k : string) (fields : list (string * Json))
  : option Json :=
  match fields with
  | [] => None
  | (k', v) :: rest => if String.eqb k' k then Some v else lookupField k rest
  end.

(** [obj[k] = v]: an existing key keeps its place, a new key goes last. *)
Fixpoint assignField (k : string) (v : Json) (fields : list (string * Json))
  : list (string * Json) :=
  match fields with
  | [] => [(k, v)]
  | (k', v') :: rest =>
      if String.eqb k' k then (k, v) :: rest
      else (k', v') :: assignField k v rest
  end.

(** [j.k1.k2...]: [Ok None] for an [undefined] last step, [TypeError] when
    an earlier step is not an object to read from. *)
Fixpoint readPath (path : list string) (j : Json) : Result (option Json) :=
  match path with
  | [] => Ok (Some j)
  | k :: rest =>
      match j with
      | JObject fields =>
          match lookupField k fields with
          | Some child => readPath rest child
          | None =>
              match rest with
              | [] => Ok None
              | _ :: _ => Throws TypeError
              end
          end
      | JArray _ | JString _ =>
          match rest with
          | [] => Ok None
          | _ :: _ => Throws TypeError
          end
      end
  end.

(** [j.k1.k2....k = v], the object at the path being mutated in place.
    Assigning on a string throws in a module; an array would accept the
    property, but no path of the schema ends in one. *)
Fixpoint assignAt (path : list string) (k : string) (v : Json) (j : Json)
  : Result Json :=
  match path with
  | [] =>
      match j with
      | JObject fields => Ok (JObject (assignField k v fields))
      | JArray _ | JString _ => Throws TypeError
      end
  | k1 :: rest =>
      match j with
      | JObject fields =>
          match lookupField k1 fields with
          | Some child =>
              match assignAt rest k v child with
              | Ok child' => Ok (JObject (assignField k1 child' fields))
              | Throws e => Throws e
              end
          | None => Throws TypeError
          end
      | JArray _ | JString _ => Throws TypeError
      end
  end.

(** Objects and arrays are truthy, a string is truthy unless empty. *)
Definition truthyJson (j : option Json) : bool :=
  match j with
  | Some (JString s) => negb (String.eqb s "")
  | Some _ => true
  | None => false
  end.

(** [JSON.parse(JSON.stringify(j))] *)
Fixpoint jsonCopy (j : Json) : Json :=
  match j with
  | JString s => JString s
  | JArray items => JArray (map jsonCopy items)
  | JObject fields =>
      JObject (map (fun kv => (fst kv, jsonCopy (snd kv))) fields)
  end.

Definition typeOf (t : string) : string * Json := ("type", JString t).

Definition stringArray : Json :=
  JObject [typeOf "array"; ("items", JObject [typeOf "string"])].

Definition AI_MIND_MAP_SCHEMA : Json :=
  JObject
    [typeOf "object";
     ("properties", JObject
        [("map", JObject
            [typeOf "array";
             ("items", JObject
                [typeOf "object";
                 ("properties", JObject
                    [("title", JObject
                        [typeOf "string";
                         ("description",
                          JString "The title of the concept or topic.")]);
                     ("subtopics", JObject
                        [typeOf "array";
                         ("items", JObject
                            [typeOf "object";
                             ("properties", JObject
                                [("title", JObject [typeOf "string"]);
                                 ("subtopics", JObject
                                    [typeOf "array";
                                     ("items", JObject [typeOf "object"])]);
                                 ("pros", stringArray);
                                 ("cons", stringArray);
                                 ("questions", stringArray)]);
                             ("required", JArray [JString "title"])])]);
                     ("pros", stringArray);
                     ("cons", stringArray);
                     ("questions", stringArray)]);
                 ("required", JArray [JString "title"])]);
             ("description",
              JString "An array of main topics, each with nested subtopics and optional debate points/questions.")])]);
     ("required", JArray [JString "map"])].

Definition bindResult {A B} (r : Result A) (f : A -> Result B) : Result B :=
  match r with
  | Ok a => f a
  | Throws e => Throws e
  end.

Definition isDebate (mode : MindMapMode) : bool :=
  match mode with DEBATE => true | _ => false end.

Definition itemProperties : list string :=
  ["properties"; "map"; "items"; "properties"].

Definition subtopicItemProperties : list string :=
  itemProperties ++ ["subtopics"; "items"; "properties"].

(** The three assignments [.pros = ...; .cons = ...; .questions = ...] on
    the object at [path]. *)
Definition addDebateFields (path : list string) (schema : Json) : Result Json :=
  bindResult (assignAt path "pros" stringArray schema) (fun s1 =>
  bindResult (assignAt path "cons" stringArray s1) (fun s2 =>
  assignAt path "questions" stringArray s2)).

Definition schemaForMode (base : Json) (mode : MindMapMode) : Result Json :=
  let schema := jsonCopy base in
  if negb (isDebate mode) then Ok schema
  else
    bindResult (readPath itemProperties schema) (fun props =>
    if negb (truthyJson props) then Ok schema
    else
      bindResult (addDebateFields itemProperties schema) (fun schema1 =>
      bindResult (readPath (itemProperties ++ ["subtopics"]) schema1)
        (fun subtopicsSchema =>
      if negb (truthyJson subtopicsSchema) then Ok schema1
      else
        bindResult (readPath (itemProperties ++ ["subtopics"; "items"]) schema1)
          (fun subtopicItems =>
        if negb (truthyJson subtopicItems) then Ok schema1
        else
          bindResult (readPath subtopicItemProperties schema1)
            (fun subtopicItemsProperties =>
          if negb (truthyJson subtopicItemsProperties) then Ok schema1
          else addDebateFields subtopicItemProperties schema1))))).

Definition getResponseSchemaForMode (mode : MindMapMode) : Result Json :=
  schemaForMode AI_MIND_MAP_SCHEMA mode.

(** *** Settling the transcription promise ([transcribeAudio])

    After the connection is requested, five callbacks can settle the
    promise: [onmessage], [onerror], [onclose], the [catch] of the session
    promise and the 20 s timer. Each one runs to completion, and each tests
    and sets the flag [transcriptionHandled]. *)

Record LiveMessage := mkLiveMessage {
  inputTranscriptionText : option string;
  turnComplete : bool
}.

Inductive LiveEvent :=
| OnMessage (message : LiveMessage)
| OnError (message : string)
| OnClose
| ConnectRejected (message : string)
| TimedOut.

Inductive LiveEffect :=
| Resolve (transcription : string)
| Reject (message : string)
| CloseSession.

Definition liveStep (transcriptionHandled : bool) (ev : LiveEvent)
  : bool * list LiveEffect :=
  match ev with
  | OnMessage message =>
      match truthyText (inputTranscriptionText message) with
      | Some t =>
          if negb transcriptionHandled
          then (true, [Resolve t; CloseSession])
          else (transcriptionHandled, [])
      | None =>
          if turnComplete message
          then
            if negb transcriptionHandled
            then (true, [Resolve ""; CloseSession])
            else (transcriptionHandled, [])
          else (transcriptionHandled, [])
      end
  | OnError message =>
      if negb transcriptionHandled
      then (true, [Reject ("Live API error: " +++ message); CloseSession])
      else (transcriptionHandled, [])
  | OnClose =>
      if negb transcriptionHandled
      then (true,
            [Reject "Live API connection closed before transcription complete."])
      else (transcriptionHandled, [])
  | ConnectRejected message =>
      if negb transcriptionHandled
      then (true,
            [Reject ("Failed to establish Live API session: " +++ message)])
      else (transcriptionHandled, [])
  | TimedOut =>
      if negb transcriptionHandled
      then (true,
            [Reject "Transcription timed out or failed to start/complete.";
             CloseSession])
      else (transcriptionHandled, [])
  end.

(** The callbacks run one after the other, in the order the events
    arrive. *)
Fixpoint liveRun (transcriptionHandled : bool) (events : list LiveEvent)
  : bool * list LiveEffect :=
  match events with
  | [] => (transcriptionHandled, [])
  | ev :: rest =>
      let (handled1, out1) := liveStep transcriptionHandled ev in
      let (handled2, out2) := liveRun handled1 rest in
      (handled2, out1 ++ out2)
  end.

(** An event that settles the promise when nothing has settled it yet. *)
Definition settles (ev : LiveEvent) : bool :=
  match ev with
  | OnMessage message =>
      isPresent (truthyText (inputTranscriptionText message))
      || turnComplete message
  | _ => true
  end.

Definition isSettlement (e : LiveEffect) : bool :=
  match e with
  | Resolve _ | Reject _ => true
  | CloseSession => false
  end.

(** ** Further notions *)

(** All nodes of a forest, in pre-order. *)
Fixpoint allNodes_node (node : MindMapNode) : list MindMapNode :=
  node :: flat_map allNodes_node (children node).

Definition allNodes (nodes : Forest) : list MindMapNode :=
  flat_map allNodes_node nodes.

(** Number of nodes of an AI tree. *)
Fixpoint aiSize (a : AIMapNode) : nat :=
  S (match subtopics a with
     | Some l => list_sum (map aiSize l)
     | None => 0
     end).

(** An update function that keeps the id. *)
Definition keepsId (f : MindMapNode -> MindMapNode) : Prop :=
  forall node, id (f node) = id node.

(** Depth and text of every node, in pre-order. *)
Definition outline (d : nat) (nodes : Forest) : list (nat * string) :=
  map (fun e => (fst e, text (snd e))) (flatten d nodes).

(** The subtopics of an AI node, an absent array read as empty. *)
Definition subtopicsOf (a : AIMapNode) : list AIMapNode :=
  match subtopics a with
  | Some l => l
  | None => []
  end.

(** Depth, id and type of the nodes of a forest whose roots are at depth
    [d]. *)
Definition skeleton (d : nat) (nodes : Forest)
  : list (nat * string * MindMapNodeType) :=
  map (fun e => (fst e, id (snd e), type (snd e))) (flatten d nodes).

(** An update function that leaves id, type and children alone. *)
Definition keepsShape (f : MindMapNode -> MindMapNode) : Prop :=
  forall node,
    id (f node) = id node /\ type (f node) = type node /\
    children (f node) = children node.

(** Pros and cons come in pairs on every node of an AI tree. *)
Fixpoint pairedEverywhere (a : AIMapNode) : bool :=
  Bool.eqb (isPresent (aiPros a)) (isPresent (aiCons a))
  && match subtopics a with
     | Some l => forallb pairedEverywhere l
     | None => true
     end.

(** ** Sample data *)

Definition sampleIds : IdSource :=
  fun k => String (Ascii.ascii_of_nat (48 + k)) EmptyString.

Definition sampleB : MindMapNode :=
  mkNode "B" "b" [] (Some "A") true SUB_TOPIC [] None None.

Definition sampleA : MindMapNode :=
  mkNode "A" "a" [sampleB] None true MAIN_TOPIC [] None None.

Definition sampleC : MindMapNode :=
  mkNode "C" "c" [] None false MAIN_TOPIC [] None None.

Definition sampleRoot : MindMapNode :=
  mkNode "A" "a" [] None false MAIN_TOPIC [] None None.

Definition sampleForest : Forest := [sampleA; sampleC].

(** The store after [SET_NODES sampleForest] on the initial state. *)
Definition sampleState : MindMapState := pushSnapshot initialState sampleForest.

(** The store after a further [DELETE_NODE "C"] and one UNDO. *)
Definition sampleUndone : MindMapState :=
  mkState (Some sampleForest) [sampleForest; [sampleA]] 0.

(** An AI node that carries pros but no cons. *)
Definition loneProsNode : AIMapNode :=
  mkAI "Topic" None (Some ["for"]) None None.

Definition debateNode : AIMapNode :=
  mkAI "Topic"
       (Some [mkAI "Point" None (Some ["for"]) (Some ["against"]) (Some ["why"])])
       None None None.

(** A collaborator that never answers with JSON, and a parser that accepts
    nothing. *)
Definition babblingAI : Collaborator := fun _ _ => Ok (Some "not json").

Definition rejectAll : string -> option AIMindMapOutput := fun _ => None.

Definition sampleStringify : AIMindMapOutput -> string := fun _ => "{}".

(** Two positions neither of which lies on the path to the other. *)
Definition incomparable (p q : Path) : Prop :=
  (forall r, q <> p ++ r) /\ (forall r, p <> q ++ r).

(** A fresh leaf for the examples that add a node. *)
Definition sampleD : MindMapNode :=
  mkNode "D" "d" [] (Some "B") true DETAIL [] None None.

(** * Lemmas *)

(** ** The fused loops are the source's [map]/[filter] pipelines *)

Lemma findNodeById_node_eq target node :
  findNodeById_node target node =
  if String.eqb (id node) target then Some node
  else findNodeById (children node) target.
Proof.
  destruct node as [i t cs p e ty tg st md]; simpl.
  destruct (String.eqb i target); [reflexivity|].
  induction cs as [|c cs IH]; simpl; [reflexivity|].
  destruct (findNodeById_node target c); [reflexivity|exact IH].
Qed.

Lemma deleteNode_node_eq target node :
  deleteNode_node target node =
  set_children node (deleteNodeRecursive (children node) target).
Proof.
  destruct node as [i t cs p e ty tg st md].
  change (deleteNode_node target (mkNode i t cs p e ty tg st md))
    with (mkNode i t
            ((fix loop (l : list MindMapNode) : list MindMapNode :=
                match l with
                | [] => []
                | c :: cs =>
                    if negb (String.eqb (id c) target)
                    then deleteNode_node target c :: loop cs
                    else loop cs
                end) cs) p e ty tg st md).
  unfold set_children, deleteNodeRecursive; cbn [id text children parentId
    isExpanded type tags status metadata].
  f_equal.
  induction cs as [|c l IH]; [reflexivity|].
  cbn [filter map].
  destruct (negb (String.eqb (id c) target)); cbn [map]; rewrite IH;
    reflexivity.
Qed.

Lemma findPath_node_eq target node :
  findPath_node target node =
  if String.eqb (id node) target then Some []
  else findPath_from (children node) target 0.
Proof.
  destruct node as [i t cs p e ty tg st md]; simpl.
  destruct (String.eqb i target); [reflexivity|].
  generalize 0%nat.
  induction cs as [|c cs IH]; simpl; intro k; [reflexivity|].
  destruct (findPath_node target c); [reflexivity|apply IH].
Qed.

Lemma deepCopy_node_id node : deepCopy_node node = node.
Proof.
  induction node as [n IH] using MindMapNode_nested_ind.
  destruct n as [i t cs p e ty tg st md]; simpl in *.
  f_equal.
  induction IH as [|c cs Hc _ IHcs]; simpl; [reflexivity|].
  rewrite Hc, IHcs. reflexivity.
Qed.

Lemma deepCopy_id nodes : deepCopy nodes = nodes.
Proof.
  unfold deepCopy. induction nodes as [|c cs IH]; simpl; [reflexivity|].
  rewrite deepCopy_node_id, IH. reflexivity.
Qed.

Lemma set_children_same node : set_children node (children node) = node.
Proof. destruct node; reflexivity. Qed.

(** ** A miss changes nothing *)

Lemma updateNode_node_absent target f node :
  ~ In target (ids_node node) -> updateNode_node target f node = node.
Proof.
  induction node as [n IH] using MindMapNode_nested_ind.
  intro Hni. destruct n as [i t cs p e ty tg st md]; simpl in *.
  destruct (String.eqb_spec i target) as [->|Hne].
  - exfalso. apply Hni. now left.
  - unfold set_children; simpl. f_equal.
    assert (Hcs : ~ In target (flat_map ids_node cs)) by tauto.
    clear Hni Hne.
    induction IH as [|c cs Hc _ IHcs]; simpl in *; [reflexivity|].
    rewrite in_app_iff in Hcs.
    rewrite Hc, IHcs by tauto. reflexivity.
Qed.

Lemma updateNodeRecursive_absent nodes target f :
  ~ In target (ids nodes) -> updateNodeRecursive nodes target f = nodes.
Proof.
  unfold updateNodeRecursive, ids.
  induction nodes as [|c cs IH]; simpl; intro Hni; [reflexivity|].
  rewrite in_app_iff in Hni.
  rewrite updateNode_node_absent, IH by tauto. reflexivity.
Qed.

Lemma deleteNodeRecursive_cons target node rest :
  deleteNodeRecursive (node :: rest) target =
  if String.eqb (id node) target then deleteNodeRecursive rest target
  else set_children node (deleteNodeRecursive (children node) target)
       :: deleteNodeRecursive rest target.
Proof.
  unfold deleteNodeRecursive at 1; simpl.
  destruct (String.eqb (id node) target); simpl; [reflexivity|].
  rewrite deleteNode_node_eq. reflexivity.
Qed.

Lemma deleteNodeRecursive_absent nodes target :
  ~ In target (ids nodes) -> deleteNodeRecursive nodes target = nodes.
Proof.
  induction nodes as [|c cs IHc IHcs] using Forest_nested_ind;
    intro Hni; [reflexivity|].
  rewrite deleteNodeRecursive_cons.
  destruct c as [i t ccs p e ty tg st md].
  unfold ids in *; simpl in *. rewrite in_app_iff in Hni.
  unfold set_children; simpl.
  destruct (String.eqb_spec i target) as [E|Hne].
  - exfalso. apply Hni. left. exact E.
  - rewrite IHc, IHcs by tauto. reflexivity.
Qed.

(** ** Deletion against the pre-order listing *)

Lemma content_set_children node cs : content (set_children node cs) = content node.
Proof. reflexivity. Qed.

Lemma flatten_cons d node rest :
  flatten d (node :: rest) =
  (d, content node) :: flatten (S d) (children node) ++ flatten d rest.
Proof. destruct node; reflexivity. Qed.

Lemma ids_cons node rest :
  ids (node :: rest) = id node :: ids (children node) ++ ids rest.
Proof. destruct node; reflexivity. Qed.

Lemma flatten_depth nodes :
  forall d e, In e (flatten d nodes) -> (d <= fst e)%nat.
Proof.
  induction nodes as [|c cs IHc IHcs] using Forest_nested_ind; intros d e Hin.
  - destruct Hin.
  - rewrite flatten_cons in Hin. destruct Hin as [<-|Hin]; [simpl; lia|].
    apply in_app_iff in Hin. destruct Hin as [Hin|Hin].
    + apply IHc in Hin. lia.
    + now apply IHcs.
Qed.

Lemma pruneFrom_skip target d0 l rest :
  (forall e, In e l -> (d0 < fst e)%nat) ->
  pruneFrom target (Some d0) (l ++ rest) = pruneFrom target (Some d0) rest.
Proof.
  induction l as [|[d c] l IH]; intro Hall; [reflexivity|].
  simpl. assert (Hd : (d0 < d)%nat) by (apply (Hall (d, c)); now left).
  apply Nat.ltb_lt in Hd. rewrite Hd. apply IH.
  intros e He. apply Hall. now right.
Qed.


Lemma pruneFrom_flatten target nodes :
  forall d skip rest,
    inactive skip d ->
    exists skip',
      inactive skip' d /\
      pruneFrom target skip (flatten d nodes ++ rest) =
      flatten d (deleteNodeRecursive nodes target) ++ pruneFrom target skip' rest.
Proof.
  induction nodes as [|c cs IHc IHcs] using Forest_nested_ind;
    intros d skip rest Hskip.
  - exists skip. split; [exact Hskip|reflexivity].
  - rewrite flatten_cons, deleteNodeRecursive_cons.
    cbn [app pruneFrom].
    assert (Hin : match skip with Some d0 => Nat.ltb d0 d | None => false end
                  = false).
    { destruct skip as [d0|]; [|reflexivity]. simpl in Hskip.
      apply Nat.ltb_ge. exact Hskip. }
    rewrite Hin. rewrite <- app_assoc.
    change (id (content c)) with (id c).
    destruct (String.eqb (id c) target).
    + rewrite pruneFrom_skip.
      * apply IHcs. simpl. lia.
      * intros e He. apply flatten_depth in He. lia.
    + destruct (IHc (S d) None (flatten d cs ++ rest) I) as (s1 & Hs1 & E1).
      assert (Hs1' : inactive s1 d).
      { destruct s1; simpl in *; [lia|exact I]. }
      destruct (IHcs d s1 rest Hs1') as (s2 & Hs2 & E2).
      exists s2. split; [exact Hs2|].
      rewrite E1, E2, flatten_cons, content_set_children.
      cbn [children set_children app]. rewrite <- app_assoc. reflexivity.
Qed.

Lemma flatten_delete_prune nodes target d :
  flatten d (deleteNodeRecursive nodes target) = prune target (flatten d nodes).
Proof.
  destruct (pruneFrom_flatten target nodes d None [] I) as (s & _ & E).
  unfold prune. rewrite <- (app_nil_r (flatten d nodes)), E.
  destruct s; simpl; now rewrite app_nil_r.
Qed.

Lemma deleteNodeRecursive_target_gone nodes target :
  ~ In target (ids (deleteNodeRecursive nodes target)).
Proof.
  induction nodes as [|c cs IHc IHcs] using Forest_nested_ind.
  - intros [].
  - rewrite deleteNodeRecursive_cons.
    destruct (String.eqb_spec (id c) target) as [E|Hne]; [exact IHcs|].
    rewrite ids_cons. cbn [id children set_children].
    intros [E|Hin]; [now apply Hne|].
    apply in_app_iff in Hin. tauto.
Qed.

Lemma flatten_delete_length nodes target :
  forall d,
    (List.length (flatten d (deleteNodeRecursive nodes target))
     <= List.length (flatten d nodes))%nat.
Proof.
  induction nodes as [|c cs IHc IHcs] using Forest_nested_ind; intro d.
  - simpl. lia.
  - rewrite deleteNodeRecursive_cons, flatten_cons.
    cbn [List.length]. rewrite length_app.
    specialize (IHc (S d)). specialize (IHcs d).
    destruct (String.eqb (id c) target); [lia|].
    rewrite flatten_cons. cbn [children set_children List.length].
    rewrite length_app. lia.
Qed.

Lemma flatten_delete_shrinks nodes target :
  forall d,
    In target (ids nodes) ->
    (List.length (flatten d (deleteNodeRecursive nodes target))
     < List.length (flatten d nodes))%nat.
Proof.
  induction nodes as [|c cs IHc IHcs] using Forest_nested_ind; intros d Hin.
  - destruct Hin.
  - rewrite deleteNodeRecursive_cons, flatten_cons.
    cbn [List.length]. rewrite length_app.
    pose proof (flatten_delete_length (children c) target (S d)) as Lc.
    pose proof (flatten_delete_length cs target d) as Lcs.
    destruct (String.eqb_spec (id c) target) as [E|Hne]; [lia|].
    rewrite flatten_cons. cbn [children set_children List.length].
    rewrite length_app.
    rewrite ids_cons in Hin. destruct Hin as [E|Hin]; [contradiction|].
    apply in_app_iff in Hin. destruct Hin as [Hin|Hin].
    + specialize (IHc (S d) Hin). lia.
    + specialize (IHcs d Hin). lia.
Qed.


Lemma content_children_eq n1 n2 :
  content n1 = content n2 -> children n1 = children n2 -> n1 = n2.
Proof.
  destruct n1, n2; unfold content, set_children; simpl.
  intros E ->. injection E; intros; subst; reflexivity.
Qed.

Lemma flatten_inj_tail nodes1 :
  forall d nodes2 r1 r2,
    lowHead d r1 -> lowHead d r2 ->
    flatten d nodes1 ++ r1 = flatten d nodes2 ++ r2 ->
    nodes1 = nodes2 /\ r1 = r2.
Proof.
  induction nodes1 as [|c cs IHc IHcs] using Forest_nested_ind;
    intros d nodes2 r1 r2 L1 L2 E.
  - destruct nodes2 as [|c2 cs2]; [split; [reflexivity|exact E]|].
    rewrite flatten_cons in E. simpl in E. subst r1. simpl in L1. lia.
  - destruct nodes2 as [|c2 cs2].
    + rewrite flatten_cons in E. simpl in E. subst r2. simpl in L2. lia.
    + rewrite !flatten_cons in E. cbn [app] in E.
      remember (content c) as k1 eqn:K1. remember (content c2) as k2 eqn:K2.
      injection E as Ec Et. subst k1 k2. rewrite <- !app_assoc in Et.
      assert (low : forall l r, lowHead d r -> lowHead (S d) (flatten d l ++ r)).
      { intros [|x l] r Hr.
        - destruct r; simpl in *; [exact I|lia].
        - rewrite flatten_cons. simpl. lia. }
      apply IHc in Et; [|now apply low|now apply low].
      destruct Et as [Ech Et].
      apply IHcs in Et; [|assumption|assumption].
      destruct Et as [-> ->]. split; [|reflexivity].
      f_equal. now apply content_children_eq.
Qed.

Lemma flatten_inj d nodes1 nodes2 :
  flatten d nodes1 = flatten d nodes2 -> nodes1 = nodes2.
Proof.
  intro E.
  apply (flatten_inj_tail nodes1 d nodes2 [] []); [exact I|exact I|].
  now rewrite !app_nil_r.
Qed.

(** ** The history store *)

Lemma js_length_app {A} (l : list A) x : js_length (l ++ [x]) = js_length l + 1.
Proof. unfold js_length. rewrite length_app. simpl. lia. Qed.

Lemma js_length_nonneg {A} (l : list A) : 0 <= js_length l.
Proof. unfold js_length. lia. Qed.

Lemma js_length_pos {A} (l : list A) : l <> [] -> 0 < js_length l.
Proof. destruct l; [congruence|]. unfold js_length. simpl. lia. Qed.

Lemma js_slice0_inrange {A} (l : list A) e :
  0 <= e <= js_length l -> js_slice0 l e = firstn (Z.to_nat e) l.
Proof.
  intro H. unfold js_slice0.
  destruct (Z.ltb_spec e 0); [lia|]. rewrite Z.min_l by lia. reflexivity.
Qed.

Lemma js_slice0_length {A} (l : list A) e :
  0 <= e <= js_length l -> js_length (js_slice0 l e) = e.
Proof.
  intro H. rewrite js_slice0_inrange by exact H.
  unfold js_length in *. rewrite length_firstn. lia.
Qed.

Lemma js_get_last {A} (l : list A) x : js_get (l ++ [x]) (js_length l) = Some x.
Proof.
  unfold js_get, js_length.
  destruct (Z.ltb_spec (Z.of_nat (List.length l)) 0); [lia|].
  rewrite Nat2Z.id, nth_error_app2, Nat.sub_diag by lia. reflexivity.
Qed.

Lemma js_get_app_l {A} (l r : list A) i :
  i < js_length l -> js_get (l ++ r) i = js_get l i.
Proof.
  unfold js_get, js_length. intro H.
  destruct (Z.ltb_spec i 0); [reflexivity|].
  apply nth_error_app1. lia.
Qed.

Lemma js_get_firstn {A} (l : list A) k i :
  i < Z.of_nat k -> js_get (firstn k l) i = js_get l i.
Proof.
  unfold js_get. intro H.
  destruct (Z.ltb_spec i 0); [reflexivity|].
  rewrite nth_error_firstn.
  destruct (Nat.ltb_spec (Z.to_nat i) k); [reflexivity|lia].
Qed.

Lemma js_get_valid {A} (l : list A) i :
  0 <= i < js_length l -> exists x, js_get l i = Some x.
Proof.
  unfold js_get, js_length. intro H.
  destruct (Z.ltb_spec i 0); [lia|].
  destruct (nth_error l (Z.to_nat i)) eqn:E; [eauto|].
  apply nth_error_None in E. lia.
Qed.

Lemma reducer_mutating s current action :
  nodes s = Some current ->
  isMutating action = true ->
  mindMapReducer s action = Ok (pushSnapshot s (applyMutation current action)).
Proof.
  intros Hn Hm. destruct action; simpl in *; try rewrite Hn;
    try reflexivity; discriminate.
Qed.

Lemma pushSnapshot_pointer s newNodes :
  historyPointer (pushSnapshot s newNodes) =
  js_length (js_slice0 (history s) (historyPointer s + 1)).
Proof. unfold pushSnapshot, js_push. simpl. rewrite js_length_app. lia. Qed.

Lemma pushSnapshot_invariant s newNodes : storeInvariant (pushSnapshot s newNodes).
Proof.
  unfold storeInvariant, validPointer. rewrite pushSnapshot_pointer.
  pose proof (js_length_nonneg (js_slice0 (history s) (historyPointer s + 1))).
  split; [lia|]. intros _.
  unfold pushSnapshot, js_push; simpl. rewrite js_length_app.
  split; [lia|].
  replace (js_length (js_slice0 (history s) (historyPointer s + 1)) + 1 - 1)
    with (js_length (js_slice0 (history s) (historyPointer s + 1))) by lia.
  now rewrite js_get_last.
Qed.

Lemma reducer_invariant s action s' :
  storeInvariant s -> mindMapReducer s action = Ok s' -> storeInvariant s'.
Proof.
  intros [Hlow Hinv] Hstep.
  destruct action; simpl in Hstep;
    try (destruct (nodes s); [|discriminate]);
    injection Hstep as <-; try apply pushSnapshot_invariant.
  - (* UNDO *)
    unfold storeInvariant, validPointer; simpl. split; [lia|].
    intro Hne. specialize (Hinv Hne). destruct Hinv as [[H0 H1] _].
    split; [lia|reflexivity].
  - (* REDO *)
    unfold storeInvariant, validPointer; simpl.
    pose proof (js_length_nonneg (history s)).
    split; [lia|].
    intro Hne. specialize (Hinv Hne). destruct Hinv as [[H0 H1] _].
    split; [lia|reflexivity].
Qed.

Lemma reachable_invariant s : reachable s -> storeInvariant s.
Proof.
  induction 1 as [|s action s' _ IH Hstep].
  - unfold storeInvariant, initialState; simpl. split; [lia|congruence].
  - eapply reducer_invariant; eassumption.
Qed.

Lemma reachable_nodes_defined s :
  reachable s -> history s <> [] ->
  validPointer s /\ exists current, nodes s = Some current /\
    js_get (history s) (historyPointer s) = Some current.
Proof.
  intros Hr Hne. destruct (reachable_invariant _ Hr) as [_ Hinv].
  destruct (Hinv Hne) as [Hv Hn]. split; [exact Hv|].
  destruct (js_get_valid _ _ Hv) as [x Hx].
  exists x. now rewrite Hn.
Qed.

(** What UNDO and then REDO see after a snapshot was pushed on a state
    whose pointer is valid. *)
Lemma pushSnapshot_history s newNodes :
  validPointer s ->
  history (pushSnapshot s newNodes) =
    firstn (Z.to_nat (historyPointer s + 1)) (history s) ++ [newNodes] /\
  historyPointer (pushSnapshot s newNodes) = historyPointer s + 1 /\
  js_length (history (pushSnapshot s newNodes)) = historyPointer s + 2.
Proof.
  intros [H0 H1].
  assert (Hr : 0 <= historyPointer s + 1 <= js_length (history s)) by lia.
  rewrite pushSnapshot_pointer, (js_slice0_length _ _ Hr).
  unfold pushSnapshot, js_push; simpl.
  rewrite js_length_app, (js_slice0_length _ _ Hr), (js_slice0_inrange _ _ Hr).
  repeat split; lia.
Qed.

(** ** Positions: [findNodePath] locates what [findNodeById] returns *)

Lemma findNodeById_cons target node rest :
  findNodeById (node :: rest) target =
  if String.eqb (id node) target then Some node
  else match findNodeById (children node) target with
       | Some found => Some found
       | None => findNodeById rest target
       end.
Proof.
  simpl. rewrite findNodeById_node_eq.
  destruct (String.eqb (id node) target); reflexivity.
Qed.

Lemma findPath_from_cons target node rest i :
  findPath_from (node :: rest) target i =
  if String.eqb (id node) target then Some [i]
  else match findPath_from (children node) target 0 with
       | Some p => Some (i :: p)
       | None => findPath_from rest target (S i)
       end.
Proof.
  simpl. rewrite findPath_node_eq.
  destruct (String.eqb (id node) target); reflexivity.
Qed.

Lemma findPath_from_sound target nodes :
  forall i,
    match findPath_from nodes target i with
    | Some p =>
        exists j p' found,
          p = (i + j)%nat :: p' /\
          nodeAt nodes (j :: p') = Some found /\
          findNodeById nodes target = Some found
    | None => findNodeById nodes target = None
    end.
Proof.
  induction nodes as [|c cs IHc IHcs] using Forest_nested_ind; intro i.
  - reflexivity.
  - rewrite findPath_from_cons, findNodeById_cons.
    destruct (String.eqb (id c) target).
    + exists 0%nat, [], c. rewrite Nat.add_0_r. repeat split.
    + specialize (IHc 0%nat).
      destruct (findPath_from (children c) target 0) as [p|].
      * destruct IHc as (j & p' & found & -> & Hat & Hfind).
        exists 0%nat, (j :: p'), found. rewrite Nat.add_0_r, Hfind.
        repeat split. exact Hat.
      * rewrite IHc. specialize (IHcs (S i)).
        destruct (findPath_from cs target (S i)) as [p|]; [|exact IHcs].
        destruct IHcs as (j & p' & found & -> & Hat & Hfind).
        exists (S j), p', found. repeat split; [f_equal; lia|exact Hat|exact Hfind].
Qed.

Lemma findNodePath_found nodes target p :
  findNodePath nodes target = Some p ->
  exists found, nodeAt nodes p = Some found /\
                findNodeById nodes target = Some found.
Proof.
  unfold findNodePath. intro E.
  pose proof (findPath_from_sound target nodes 0) as H. rewrite E in H.
  destruct H as (j & p' & found & -> & Hat & Hfind).
  exists found. split; assumption.
Qed.

Lemma findNodePath_none nodes target :
  findNodePath nodes target = None <-> findNodeById nodes target = None.
Proof.
  unfold findNodePath.
  pose proof (findPath_from_sound target nodes 0) as H.
  destruct (findPath_from nodes target 0) as [p|].
  - destruct H as (j & p' & found & _ & _ & Hfind). rewrite Hfind.
    split; discriminate.
  - tauto.
Qed.

(** The node [findNodeById] returns is the one at [findNodePath]. *)
Lemma findNodeById_by_path nodes target :
  findNodeById nodes target =
  match findNodePath nodes target with
  | Some p => nodeAt nodes p
  | None => None
  end.
Proof.
  destruct (findNodePath nodes target) as [p|] eqn:E.
  - destruct (findNodePath_found _ _ _ E) as (found & Hat & Hfind). congruence.
  - now apply findNodePath_none.
Qed.

Lemma findNodeById_id nodes target found :
  findNodeById nodes target = Some found -> id found = target.
Proof.
  induction nodes as [|c cs IHc IHcs] using Forest_nested_ind.
  - discriminate.
  - rewrite findNodeById_cons.
    destruct (String.eqb_spec (id c) target) as [E|_].
    + intros [= <-]. exact E.
    + destruct (findNodeById (children c) target); [exact IHc|exact IHcs].
Qed.

Lemma findNodeById_present nodes target :
  In target (ids nodes) <-> findNodeById nodes target <> None.
Proof.
  induction nodes as [|c cs IHc IHcs] using Forest_nested_ind.
  - simpl. split; [intros []|congruence].
  - rewrite ids_cons, findNodeById_cons. simpl. rewrite in_app_iff.
    destruct (String.eqb_spec (id c) target) as [E|Hne].
    + split; [discriminate|now left].
    + destruct (findNodeById (children c) target).
      * split; [discriminate|]. intros _. right; left. apply IHc. discriminate.
      * split.
        -- intros [E|[H|H]]; [contradiction|now apply IHc in H|now apply IHcs].
        -- intro H. right; right. now apply IHcs.
Qed.

Lemma nth_error_list_alter {A} (g : A -> A) i l :
  nth_error (list_alter g i l) i = option_map g (nth_error l i).
Proof.
  revert i. induction l as [|x l IH]; intros [|i]; simpl; auto.
Qed.

Lemma nodeAt_node_mutateAt f p :
  forall node found,
    nodeAt_node node p = Some found ->
    nodeAt_node (mutateAt_node f p node) p = Some (f found).
Proof.
  induction p as [|i p IH]; intros node found; simpl.
  - now intros [= ->].
  - rewrite nth_error_list_alter.
    destruct (nth_error (children node) i) as [c|]; [|discriminate].
    simpl. apply IH.
Qed.

Lemma nodeAt_mutateAt f p nodes found :
  nodeAt nodes p = Some found ->
  nodeAt (mutateAt f p nodes) p = Some (f found).
Proof.
  destruct p as [|i p]; simpl; [discriminate|].
  rewrite nth_error_list_alter.
  destruct (nth_error nodes i) as [c|]; [|discriminate].
  simpl. apply nodeAt_node_mutateAt.
Qed.

Lemma nodeAt_node_app node p q found :
  nodeAt_node node p = Some found ->
  nodeAt_node node (p ++ q) = nodeAt_node found q.
Proof.
  revert node. induction p as [|i p IH]; intros node; simpl.
  - now intros [= ->].
  - destruct (nth_error (children node) i) as [c|]; [apply IH|discriminate].
Qed.

Lemma nodeAt_app nodes p q found :
  nodeAt nodes p = Some found ->
  q <> [] ->
  nodeAt nodes (p ++ q) = nodeAt_node found q.
Proof.
  destruct p as [|i p]; simpl; [discriminate|].
  destruct (nth_error nodes i) as [c|]; [|discriminate].
  intros H _. now apply nodeAt_node_app.
Qed.

Lemma addNode_found current pid newNode found :
  findNodeById current pid = Some found ->
  exists p,
    findNodePath current pid = Some p /\
    nodeAt current p = Some found /\
    addNode current (Some pid) newNode = mutateAt (receiveChild newNode) p current.
Proof.
  intro Hfind. unfold addNode. rewrite deepCopy_id.
  destruct (findNodePath current pid) as [p|] eqn:E.
  - destruct (findNodePath_found _ _ _ E) as (found' & Hat & Hfind').
    exists p. repeat split. congruence.
  - apply findNodePath_none in E. congruence.
Qed.

Lemma addNode_missing current pid newNode :
  findNodeById current pid = None ->
  addNode current (Some pid) newNode = current.
Proof.
  intro Hfind. unfold addNode. rewrite deepCopy_id.
  apply findNodePath_none in Hfind. now rewrite Hfind.
Qed.

(** ** The adapter *)

Lemma convertAI_eq uuidv4 aiNode parent level k :
  convertAIMapNodeToMindMapNode uuidv4 aiNode parent level k =
  let (cs, k') :=
    importAll uuidv4 (subtopicsOf aiNode) (Some (uuidv4 k)) (S level) (S k) in
  (mkNode (uuidv4 k) (title aiNode) cs parent true (nodeTypeOfLevel level) []
          None (Some (importMetadata aiNode)), k').
Proof.
  destruct aiNode as [t s p c q]. unfold subtopicsOf.
  cbn [convertAIMapNodeToMindMapNode subtopics title].
  destruct s as [l|]; [|reflexivity].
  match goal with
  | |- (let (_, _) := ?loop l (S k) in _) = _ =>
      assert (E : forall l k1, loop l k1 =
                    importAll uuidv4 l (Some (uuidv4 k)) (S level) k1)
  end.
  { clear. induction l as [|x l IH]; intro k1; [reflexivity|].
    simpl.
    destruct (convertAIMapNodeToMindMapNode uuidv4 x (Some (uuidv4 k))
                (S level) k1) as [c k2].
    rewrite IH. reflexivity. }
  rewrite E. reflexivity.
Qed.

Lemma importAll_cons uuidv4 aiNode rest parent level k :
  importAll uuidv4 (aiNode :: rest) parent level k =
  (fst (convertAIMapNodeToMindMapNode uuidv4 aiNode parent level k)
   :: fst (importAll uuidv4 rest parent level
             (snd (convertAIMapNodeToMindMapNode uuidv4 aiNode parent level k))),
   snd (importAll uuidv4 rest parent level
          (snd (convertAIMapNodeToMindMapNode uuidv4 aiNode parent level k)))).
Proof.
  cbn [importAll].
  destruct (convertAIMapNodeToMindMapNode uuidv4 aiNode parent level k) as [c k1].
  cbn [fst snd].
  destruct (importAll uuidv4 rest parent level k1) as [cs k2]. reflexivity.
Qed.

Lemma convertAI_fst uuidv4 aiNode parent level k :
  fst (convertAIMapNodeToMindMapNode uuidv4 aiNode parent level k) =
  mkNode (uuidv4 k) (title aiNode)
         (fst (importAll uuidv4 (subtopicsOf aiNode) (Some (uuidv4 k))
                 (S level) (S k)))
         parent true (nodeTypeOfLevel level) [] None
         (Some (importMetadata aiNode)).
Proof.
  rewrite convertAI_eq.
  destruct (importAll uuidv4 (subtopicsOf aiNode) (Some (uuidv4 k)) (S level)
              (S k)) as [cs k']. reflexivity.
Qed.

Lemma importAll_nth uuidv4 l :
  forall parent level k i c,
    nth_error (fst (importAll uuidv4 l parent level k)) i = Some c ->
    exists x k1,
      In x l /\
      c = fst (convertAIMapNodeToMindMapNode uuidv4 x parent level k1).
Proof.
  induction l as [|a l IH]; intros parent level k i c.
  - destruct i; discriminate.
  - rewrite importAll_cons. cbn [fst]. destruct i as [|i]; simpl.
    + intros [= <-]. exists a, k. split; [now left|reflexivity].
    + intro H. apply IH in H. destruct H as (x & k1 & Hin & ->).
      exists x, k1. split; [now right|reflexivity].
Qed.

Lemma subtopicsOf_Forall (P : AIMapNode -> Prop) a :
  (forall l, subtopics a = Some l -> Forall P l) -> Forall P (subtopicsOf a).
Proof.
  unfold subtopicsOf. destruct (subtopics a) as [l|]; intro H; [now apply H|].
  constructor.
Qed.

Lemma import_typed_by_depth uuidv4 aiNode :
  forall parent level k p found,
    nodeAt_node (fst (convertAIMapNodeToMindMapNode uuidv4 aiNode parent level k))
                p = Some found ->
    type found = nodeTypeOfLevel (level + List.length p).
Proof.
  induction aiNode as [a IH] using AIMapNode_nested_ind.
  apply subtopicsOf_Forall in IH. rewrite Forall_forall in IH.
  intros parent level k p found. rewrite convertAI_fst.
  destruct p as [|i p]; cbn [nodeAt_node children List.length].
  - intros [= <-]. rewrite Nat.add_0_r. reflexivity.
  - destruct (nth_error _ i) as [c|] eqn:E; [|discriminate].
    apply importAll_nth in E. destruct E as (x & k1 & Hin & ->).
    intro H. apply (IH x Hin) in H. rewrite H. f_equal. lia.
Qed.

Lemma export_importMetadata a (node : MindMapNode) :
  metadata node = Some (importMetadata a) ->
  let both := isPresent (aiPros a) && isPresent (aiCons a) in
  convertMindMapNodeToAIMapNode node =
  mkAI (text node) (Some (map convertMindMapNodeToAIMapNode (children node)))
       (if both then aiPros a else None)
       (if both then aiCons a else None)
       (aiQuestions a).
Proof.
  intro Hm. destruct node as [i t cs p e ty tg st md]; simpl in *. subst md.
  unfold importMetadata.
  destruct (aiPros a), (aiCons a), (aiQuestions a); reflexivity.
Qed.

Lemma export_import uuidv4 aiNode :
  forall parent level k,
    convertMindMapNodeToAIMapNode
      (fst (convertAIMapNodeToMindMapNode uuidv4 aiNode parent level k))
    = roundTripImage aiNode.
Proof.
  induction aiNode as [a IH] using AIMapNode_nested_ind.
  apply subtopicsOf_Forall in IH.
  intros parent level k. rewrite convertAI_fst.
  rewrite (export_importMetadata a) by reflexivity.
  cbn [text children].
  assert (E : forall par lvl k1,
             map convertMindMapNodeToAIMapNode
                 (fst (importAll uuidv4 (subtopicsOf a) par lvl k1))
             = map roundTripImage (subtopicsOf a)).
  { induction IH as [|x l Hx _ IHl]; intros par lvl k1; [reflexivity|].
    rewrite importAll_cons. cbn [fst map]. rewrite Hx, IHl. reflexivity. }
  rewrite E. destruct a as [t s p c q]; unfold subtopicsOf; simpl.
  destruct s; reflexivity.
Qed.

(** ** Types are carried along, never recomputed *)

Lemma skeleton_cons d node rest :
  skeleton d (node :: rest) =
  (d, id node, type node) :: skeleton (S d) (children node) ++ skeleton d rest.
Proof.
  unfold skeleton. rewrite flatten_cons. cbn [map fst snd].
  rewrite map_app. reflexivity.
Qed.

Lemma skeleton_app d nodes1 nodes2 :
  skeleton d (nodes1 ++ nodes2) = skeleton d nodes1 ++ skeleton d nodes2.
Proof.
  unfold skeleton, flatten. rewrite flat_map_app, map_app. reflexivity.
Qed.

Lemma updateNode_node_eq target f node :
  updateNode_node target f node =
  if String.eqb (id node) target then f node
  else set_children node (updateNodeRecursive (children node) target f).
Proof. destruct node; reflexivity. Qed.

Lemma updateNodeRecursive_cons target f node rest :
  updateNodeRecursive (node :: rest) target f =
  (if String.eqb (id node) target then f node
   else set_children node (updateNodeRecursive (children node) target f))
  :: updateNodeRecursive rest target f.
Proof.
  unfold updateNodeRecursive at 1. cbn [map].
  rewrite updateNode_node_eq. reflexivity.
Qed.

Lemma update_skeleton target f nodes :
  keepsShape f ->
  forall d, skeleton d (updateNodeRecursive nodes target f) = skeleton d nodes.
Proof.
  intro Hf.
  induction nodes as [|c cs IHc IHcs] using Forest_nested_ind; intro d.
  - reflexivity.
  - rewrite updateNodeRecursive_cons, !skeleton_cons, IHcs.
    destruct (String.eqb (id c) target).
    + destruct (Hf c) as (-> & -> & ->). reflexivity.
    + cbn [id type children set_children]. rewrite IHc. reflexivity.
Qed.

Lemma keepsShape_updateText newText : keepsShape (updateText newText).
Proof. intros []; repeat split. Qed.

Lemma keepsShape_toggleExpand : keepsShape toggleExpand.
Proof. intros []; repeat split. Qed.

Lemma keepsShape_updateMetadata patch newStatus :
  keepsShape (updateMetadata patch newStatus).
Proof. intros []; destruct newStatus; repeat split. Qed.

Lemma pruneFrom_In target l :
  forall skip e, In e (pruneFrom target skip l) -> In e l.
Proof.
  induction l as [|[d c] l IH]; intros skip e; simpl; [tauto|].
  destruct (match skip with Some d0 => Nat.ltb d0 d | None => false end).
  - intro H. right. eapply IH. exact H.
  - destruct (String.eqb (id c) target).
    + intro H. right. eapply IH. exact H.
    + intros [H|H]; [now left|]. right. eapply IH. exact H.
Qed.

Lemma delete_skeleton_In target nodes d e :
  In e (skeleton d (deleteNodeRecursive nodes target)) ->
  In e (skeleton d nodes).
Proof.
  unfold skeleton. rewrite flatten_delete_prune, !in_map_iff.
  intros (x & Hx & Hin). exists x. split; [exact Hx|].
  eapply pruneFrom_In. exact Hin.
Qed.

Lemma list_alter_skeleton_In (g : MindMapNode -> MindMapNode) d e :
  forall l i,
    In e (skeleton d (list_alter g i l)) ->
    In e (skeleton d l) \/
    exists x, nth_error l i = Some x /\ In e (skeleton d [g x]).
Proof.
  induction l as [|x l IH]; intros i Hin; [destruct i; now left|].
  destruct i as [|i]; cbn [list_alter] in Hin.
  - change (g x :: l) with ([g x] ++ l) in Hin.
    change (x :: l) with ([x] ++ l).
    rewrite skeleton_app, in_app_iff in *.
    destruct Hin as [H|H]; [|tauto].
    right. exists x. split; [reflexivity|exact H].
  - change (x :: list_alter g i l) with ([x] ++ list_alter g i l) in Hin.
    change (x :: l) with ([x] ++ l).
    rewrite skeleton_app, in_app_iff in *.
    destruct Hin as [H|H]; [tauto|].
    apply IH in H. destruct H as [H|(y & Hy & H)]; [tauto|].
    right. exists y. split; assumption.
Qed.

Lemma skeleton_single d node :
  skeleton d [node] =
  (d, id node, type node) :: skeleton (S d) (children node).
Proof.
  rewrite skeleton_cons. f_equal.
  change (skeleton d []) with (@nil (nat * string * MindMapNodeType)).
  apply app_nil_r.
Qed.

Lemma mutateAt_node_skeleton_In newNode e p :
  forall node d,
    In e (skeleton d [mutateAt_node (receiveChild newNode) p node]) ->
    In e (skeleton d [node]) \/ exists d', In e (skeleton d' [newNode]).
Proof.
  induction p as [|i p IH]; intros node d; cbn [mutateAt_node].
  - rewrite !skeleton_single. unfold receiveChild, js_push.
    cbn [id type children set_isExpanded set_children].
    rewrite skeleton_app. cbn [In]. rewrite in_app_iff.
    intros [H|[H|H]]; [tauto|tauto|]. right. exists (S d). exact H.
  - rewrite !skeleton_single. cbn [id type children set_children In].
    intros [H|H]; [tauto|].
    apply list_alter_skeleton_In in H.
    destruct H as [H|(x & Hx & H)]; [tauto|].
    apply IH in H. destruct H as [H|H]; [|tauto].
    left. right.
    apply nth_error_split in Hx. destruct Hx as (l1 & l2 & -> & _).
    change (x :: l2) with ([x] ++ l2).
    rewrite !skeleton_app, !in_app_iff. tauto.
Qed.

Lemma mutateAt_skeleton_In newNode e p nodes :
  In e (skeleton 0 (mutateAt (receiveChild newNode) p nodes)) ->
  In e (skeleton 0 nodes) \/ exists d', In e (skeleton d' [newNode]).
Proof.
  destruct p as [|i p]; cbn [mutateAt]; [tauto|].
  intro H. apply list_alter_skeleton_In in H.
  destruct H as [H|(x & Hx & H)]; [tauto|].
  apply mutateAt_node_skeleton_In in H. destruct H as [H|H]; [|tauto].
  left. apply nth_error_split in Hx. destruct Hx as (l1 & l2 & -> & _).
  change (x :: l2) with ([x] ++ l2).
  rewrite !skeleton_app, !in_app_iff. tauto.
Qed.

Lemma addNode_skeleton_In current parent newNode e :
  In e (skeleton 0 (addNode current parent newNode)) ->
  In e (skeleton 0 current) \/ exists d', In e (skeleton d' [newNode]).
Proof.
  unfold addNode, js_push. rewrite deepCopy_id.
  destruct parent as [pid|].
  - destruct (findNodePath current pid) as [p|]; [|tauto].
    apply mutateAt_skeleton_In.
  - rewrite skeleton_app, in_app_iff. intros [H|H]; [tauto|].
    right. exists 0%nat. exact H.
Qed.

Lemma roundTripImage_paired a :
  pairedEverywhere a = true -> roundTripImage a = canonical a.
Proof.
  induction a as [a IH] using AIMapNode_nested_ind.
  destruct a as [t s p c q]; simpl in *.
  intro H. apply andb_true_iff in H. destruct H as [Hpc Hsub].
  f_equal.
  - destruct s as [l|]; [|reflexivity]. f_equal.
    specialize (IH l eq_refl). rewrite forallb_forall in Hsub.
    induction IH as [|x l Hx _ IHl]; [reflexivity|]. simpl.
    rewrite Hx by (apply Hsub; now left).
    rewrite IHl by (intros y Hy; apply Hsub; now right). reflexivity.
  - destruct p, c; simpl in *; try reflexivity; discriminate.
  - destruct p, c; simpl in *; try reflexivity; discriminate.
Qed.

Lemma sampleState_reachable : reachable sampleState.
Proof.
  apply (reachable_step initialState (SET_NODES sampleForest)).
  - apply reachable_init.
  - reflexivity.
Qed.

Lemma sampleUndone_reachable : reachable sampleUndone.
Proof.
  apply (reachable_step (pushSnapshot sampleState [sampleA]) UNDO).
  - apply (reachable_step sampleState (DELETE_NODE "C")).
    + apply sampleState_reachable.
    + reflexivity.
  - reflexivity.
Qed.

(** ** A mutation at a position leaves the rest of the forest alone *)

Lemma nth_error_list_alter_other {A} (g : A -> A) i j l :
  i <> j -> nth_error (list_alter g i l) j = nth_error l j.
Proof.
  revert i j. induction l as [|x l IH]; intros [|i] [|j] H; simpl; auto.
  congruence.
Qed.

Lemma nodeAt_node_mutateAt_other f p :
  forall q node,
    incomparable p q ->
    nodeAt_node (mutateAt_node f p node) q = nodeAt_node node q.
Proof.
  induction p as [|i p IH]; intros q node [Hq Hp].
  - exfalso. now apply (Hq q).
  - destruct q as [|j q]; [exfalso; now apply (Hp (i :: p))|].
    cbn [mutateAt_node nodeAt_node children set_children].
    destruct (Nat.eq_dec i j) as [<-|Hne].
    + rewrite nth_error_list_alter.
      destruct (nth_error (children node) i) as [c|]; [|reflexivity].
      simpl. apply IH. split; intros r E.
      * apply (Hq r). simpl. now f_equal.
      * apply (Hp r). simpl. now f_equal.
    + now rewrite nth_error_list_alter_other.
Qed.

Lemma nodeAt_mutateAt_other f p q nodes :
  incomparable p q ->
  nodeAt (mutateAt f p nodes) q = nodeAt nodes q.
Proof.
  intros [Hq Hp].
  destruct p as [|i p]; [reflexivity|].
  destruct q as [|j q]; [reflexivity|].
  cbn [mutateAt nodeAt].
  destruct (Nat.eq_dec i j) as [<-|Hne].
  - rewrite nth_error_list_alter.
    destruct (nth_error nodes i) as [c|]; [|reflexivity].
    simpl. apply nodeAt_node_mutateAt_other. split; intros r E.
    + apply (Hq r). simpl. now f_equal.
    + apply (Hp r). simpl. now f_equal.
  - now rewrite nth_error_list_alter_other.
Qed.

Lemma nodeAt_node_mutateAt_ancestor f :
  forall q node i r,
    option_map content (nodeAt_node (mutateAt_node f (q ++ i :: r) node) q)
    = option_map content (nodeAt_node node q).
Proof.
  induction q as [|j q IH]; intros node i r.
  - reflexivity.
  - cbn [app mutateAt_node nodeAt_node children set_children].
    rewrite nth_error_list_alter.
    destruct (nth_error (children node) j) as [c|]; [|reflexivity].
    simpl. apply IH.
Qed.

Lemma nodeAt_mutateAt_ancestor f q i r nodes :
  option_map content (nodeAt (mutateAt f (q ++ i :: r) nodes) q)
  = option_map content (nodeAt nodes q).
Proof.
  destruct q as [|j q]; [reflexivity|].
  cbn [app mutateAt nodeAt]. rewrite nth_error_list_alter.
  destruct (nth_error nodes j) as [c|]; [|reflexivity].
  simpl. apply nodeAt_node_mutateAt_ancestor.
Qed.

(** ** With unique ids, the descendants of a deleted node are gone *)

Lemma ids_delete_In target nodes x :
  In x (ids (deleteNodeRecursive nodes target)) -> In x (ids nodes).
Proof.
  induction nodes as [|c cs IHc IHcs] using Forest_nested_ind; [tauto|].
  rewrite deleteNodeRecursive_cons, (ids_cons c cs). simpl.
  rewrite in_app_iff.
  destruct (String.eqb (id c) target); [tauto|].
  rewrite ids_cons. cbn [id children set_children In]. rewrite in_app_iff.
  tauto.
Qed.

Lemma found_children_ids target nodes found x :
  findNodeById nodes target = Some found ->
  In x (ids (children found)) -> In x (ids nodes).
Proof.
  induction nodes as [|c cs IHc IHcs] using Forest_nested_ind; [discriminate|].
  rewrite findNodeById_cons, ids_cons. simpl. rewrite in_app_iff.
  destruct (String.eqb (id c) target).
  - intros [= <-]. tauto.
  - destruct (findNodeById (children c) target); tauto.
Qed.

Lemma NoDup_app_disjoint {A} (l l' : list A) x :
  NoDup (l ++ l') -> In x l -> ~ In x l'.
Proof.
  induction l as [|a l IH]; simpl; [tauto|].
  intros Hnd [<-|Hin] Hin'.
  - apply NoDup_cons_iff in Hnd. apply (proj1 Hnd). apply in_app_iff. tauto.
  - apply NoDup_cons_iff in Hnd. now apply (IH (proj2 Hnd) Hin).
Qed.

Lemma delete_descendants_gone target nodes :
  NoDup (ids nodes) ->
  forall found x,
    findNodeById nodes target = Some found ->
    In x (ids (children found)) ->
    ~ In x (ids (deleteNodeRecursive nodes target)).
Proof.
  induction nodes as [|c cs IHc IHcs] using Forest_nested_ind;
    intros Hnd found x; [discriminate|].
  rewrite ids_cons in Hnd. apply NoDup_cons_iff in Hnd.
  destruct Hnd as [Hc Hnd].
  pose proof (NoDup_app_remove_l _ _ Hnd) as Hcs.
  pose proof (NoDup_app_remove_r _ _ Hnd) as Hch.
  rewrite findNodeById_cons, deleteNodeRecursive_cons.
  destruct (String.eqb (id c) target).
  - intros [= <-] Hx Hin. apply ids_delete_In in Hin.
    now apply (NoDup_app_disjoint _ _ x Hnd).
  - rewrite ids_cons. cbn [id children set_children In]. rewrite in_app_iff.
    destruct (findNodeById (children c) target) as [f|] eqn:Hf.
    + intros [= <-] Hx.
      pose proof (found_children_ids _ _ _ _ Hf Hx) as Hxc.
      intros [E|[Hin|Hin]].
      * subst x. apply Hc. apply in_app_iff. tauto.
      * now apply (IHc Hch f x).
      * apply ids_delete_In in Hin. now apply (NoDup_app_disjoint _ _ x Hnd).
    + intros Hfind Hx.
      pose proof (found_children_ids _ _ _ _ Hfind Hx) as Hxs.
      intros [E|[Hin|Hin]].
      * subst x. apply Hc. apply in_app_iff. tauto.
      * apply ids_delete_In in Hin. now apply (NoDup_app_disjoint _ _ x Hnd).
      * now apply (IHcs Hcs found x).
Qed.

(** * Properties *)

(** ** Round trip through the adapter *)

(** C1, as stated, fails: a node that carries pros without cons loses its
    pros on import (the metadata folds pros and cons only when both are
    present), so the exported tree differs from the imported one. *)
Lemma export_import_drops_lone_pros :
  aiPros loneProsNode = Some ["for"] /\
  metadata (fst (convertAIMapNodeToMindMapNode sampleIds loneProsNode None 0 0))
    = Some emptyMetadata /\
  aiPros (convertMindMapNodeToAIMapNode
            (fst (convertAIMapNodeToMindMapNode sampleIds loneProsNode None 0 0)))
    = None /\
  convertMindMapNodeToAIMapNode
    (fst (convertAIMapNodeToMindMapNode sampleIds loneProsNode None 0 0))
    <> canonical loneProsNode.
Proof. repeat split. discriminate. Qed.

(** C1, amended: exporting an imported AI tree keeps, at every node and any
    depth, the title and the questions, and keeps pros and cons on the nodes
    that carry both; pros or cons standing alone are dropped. On a tree
    whose pros and cons come in pairs nothing but the absent/empty
    distinction of [subtopics] is lost. *)
Theorem export_import_round_trip
    (uuidv4 : IdSource) (x : AIMapNode) (parent : option string)
    (level k : nat) :
  convertMindMapNodeToAIMapNode
    (fst (convertAIMapNodeToMindMapNode uuidv4 x parent level k))
  = roundTripImage x /\
  (pairedEverywhere x = true ->
   convertMindMapNodeToAIMapNode
     (fst (convertAIMapNodeToMindMapNode uuidv4 x parent level k))
   = canonical x).
Proof.
  split; [apply export_import|].
  intro H. rewrite export_import. now apply roundTripImage_paired.
Qed.

Lemma export_import_round_trip_witness :
  pairedEverywhere debateNode = true /\
  convertMindMapNodeToAIMapNode
    (fst (convertAIMapNodeToMindMapNode sampleIds debateNode None 0 0))
  = canonical debateNode.
Proof.
  split; [reflexivity|].
  apply (export_import_round_trip sampleIds debateNode None 0 0). reflexivity.
Defined.

(** ** Node types *)

(** C2, as stated, fails for the add-child action: a child added under a
    root sits at depth 1, where the depth rule gives SUB_TOPIC, and is
    created with type DETAIL. *)
Lemma addChild_ignores_depth :
  exists s1 nodes1 created,
    handleAddChild sampleIds (mkSession (pushSnapshot initialState [sampleRoot])
                                        None 0) "A" = Ok s1 /\
    nodes (store s1) = Some nodes1 /\
    nodeAt nodes1 [0; 0]%nat = Some created /\
    id created = sampleIds 0%nat /\
    depthOf nodes1 (sampleIds 0%nat) = Some 1%nat /\
    type created = DETAIL /\
    type created <> nodeTypeOfLevel 1.
Proof.
  eexists _, _, _. repeat split; try reflexivity. discriminate.
Qed.

(** C2, amended: a node created by import gets its type from its depth
    (0 gives MAIN_TOPIC, 1 SUB_TOPIC, 2 and more DETAIL); a node created by
    the add-child action gets type DETAIL at whatever depth it lands; and no
    store action recomputes a type: after AddNode, UpdateText, Delete,
    ToggleExpand or UpdateMetadata every node of the forest is a node of the
    previous forest with the same depth, id and type, or belongs to the node
    just added. *)
Theorem type_assigned_at_creation :
  (forall uuidv4 aiNode parent level k p found,
      nodeAt_node
        (fst (convertAIMapNodeToMindMapNode uuidv4 aiNode parent level k)) p
        = Some found ->
      type found = nodeTypeOfLevel (level + List.length p)) /\
  (forall uuidv4 s current parent parentNode,
      nodes (store s) = Some current ->
      findNodeById current parent = Some parentNode ->
      exists s' nodes' p,
        handleAddChild uuidv4 s parent = Ok s' /\
        nodes (store s') = Some nodes' /\
        nodeAt current p = Some parentNode /\
        nodeAt nodes' (p ++ [List.length (children parentNode)])
          = Some (newIdea (uuidv4 (drawn s)) parent) /\
        type (newIdea (uuidv4 (drawn s)) parent) = DETAIL) /\
  (forall s current action,
      nodes s = Some current ->
      isMutating action = true ->
      (forall payload, action <> SET_NODES payload) ->
      exists s' nodes',
        mindMapReducer s action = Ok s' /\
        nodes s' = Some nodes' /\
        forall e,
          In e (typeSkeleton nodes') ->
          In e (typeSkeleton current) \/
          exists parent newNode d,
            action = ADD_NODE parent newNode /\ In e (skeleton d [newNode])).
Proof.
  split; [|split].
  - intros. eapply import_typed_by_depth. eassumption.
  - intros uuidv4 s current parent parentNode Hn Hfind.
    unfold handleAddChild, dispatch. cbn [store mindMapReducer].
    rewrite Hn.
    destruct (addNode_found current parent
                (newIdea (uuidv4 (drawn s)) parent) parentNode Hfind)
      as (p & _ & Hat & Hadd).
    eexists _, _, p. split; [reflexivity|]. cbn [store pushSnapshot nodes].
    split; [reflexivity|]. split; [exact Hat|]. split; [|reflexivity].
    rewrite Hadd.
    rewrite (nodeAt_app _ p _ (receiveChild (newIdea (uuidv4 (drawn s)) parent)
                                            parentNode)).
    + unfold receiveChild, js_push. cbn [nodeAt_node children set_isExpanded
                                          set_children].
      rewrite nth_error_app2, Nat.sub_diag by lia. reflexivity.
    + now apply nodeAt_mutateAt.
    + discriminate.
  - intros s current action Hn Hm Hset.
    rewrite (reducer_mutating s current action Hn Hm).
    eexists _, _. split; [reflexivity|]. split; [reflexivity|].
    intros e He. change typeSkeleton with (skeleton 0) in *.
    destruct action; cbn [applyMutation] in He; try discriminate.
    + exfalso. now apply (Hset payload).
    + apply addNode_skeleton_In in He. destruct He as [He|[d He]]; [now left|].
      right. exists parent, newNode, d. split; [reflexivity|exact He].
    + left. now rewrite update_skeleton in He by apply keepsShape_updateText.
    + left. eapply delete_skeleton_In. exact He.
    + left. now rewrite update_skeleton in He by apply keepsShape_toggleExpand.
    + left.
      now rewrite update_skeleton in He by apply keepsShape_updateMetadata.
Qed.

Lemma type_assigned_at_creation_witness :
  (exists found,
      nodeAt_node
        (fst (convertAIMapNodeToMindMapNode sampleIds debateNode None 0 0))
        [0%nat] = Some found /\
      type found = SUB_TOPIC) /\
  (exists nodes',
      nodesAfter (mindMapReducer sampleState (DELETE_NODE "B")) = Some nodes' /\
      forall e, In e (typeSkeleton nodes') -> In e (typeSkeleton sampleForest)).
Proof.
  destruct type_assigned_at_creation as (Himport & _ & Hkeep).
  split.
  - eexists. split; [reflexivity|].
    apply (Himport sampleIds debateNode None 0%nat 0%nat [0%nat]). reflexivity.
  - destruct (Hkeep sampleState sampleForest (DELETE_NODE "B") eq_refl eq_refl)
      as (s' & nodes' & Hstep & Hn & Hin); [discriminate|].
    exists nodes'. split.
    + rewrite Hstep. exact Hn.
    + intros e He. destruct (Hin e He) as [H|(par & n & d & Habs & _)];
        [exact H|discriminate].
Defined.

(** ** Undo and redo *)

(** C3: in a state of the store that holds at least one snapshot, one
    mutating action followed by Undo gives back exactly the forest the state
    had, and Redo after that Undo gives exactly the forest the action
    produced. *)
Theorem undo_redo_after_action
    (s : MindMapState) (action : MindMapAction)
    (Hreach : reachable s) (Hsnap : history s <> [])
    (Hmut : isMutating action = true) :
  exists current s1 s2 s3,
    nodes s = Some current /\
    mindMapReducer s action = Ok s1 /\
    nodes s1 = Some (applyMutation current action) /\
    mindMapReducer s1 UNDO = Ok s2 /\
    nodes s2 = Some current /\
    mindMapReducer s2 REDO = Ok s3 /\
    nodes s3 = Some (applyMutation current action).
Proof.
  destruct (reachable_nodes_defined s Hreach Hsnap)
    as (Hv & current & Hn & Hget).
  set (produced := applyMutation current action).
  destruct (pushSnapshot_history s produced Hv) as (Hh & Hp & Hl).
  pose proof Hv as [Hv0 Hv1].
  set (s1 := pushSnapshot s produced) in *.
  assert (Hget1 : js_get (history s1) (historyPointer s) = Some current).
  { rewrite Hh, js_get_app_l.
    - rewrite js_get_firstn by lia. exact Hget.
    - unfold js_length. rewrite length_firstn. unfold js_length in Hv1. lia. }
  assert (Hget2 : js_get (history s1) (historyPointer s + 1) = Some produced).
  { rewrite <- Hp. subst s1. rewrite pushSnapshot_pointer.
    unfold pushSnapshot, js_push. cbn [history]. apply js_get_last. }
  exists current, s1,
    (mkState (Some current) (history s1) (historyPointer s)),
    (mkState (Some produced) (history s1) (historyPointer s + 1)).
  split; [exact Hn|].
  split; [now apply reducer_mutating|].
  split; [reflexivity|].
  split.
  { cbn [mindMapReducer].
    replace (Z.max 0 (historyPointer s1 - 1)) with (historyPointer s) by lia.
    now rewrite Hget1. }
  split; [reflexivity|].
  split; [|reflexivity].
  cbn [mindMapReducer history historyPointer].
  replace (Z.min (js_length (history s1) - 1) (historyPointer s + 1))
    with (historyPointer s + 1) by lia.
  now rewrite Hget2.
Qed.

Lemma undo_redo_after_action_witness :
  exists current s1 s2 s3,
    nodes sampleState = Some current /\
    mindMapReducer sampleState (TOGGLE_EXPAND "A") = Ok s1 /\
    nodes s1 = Some (applyMutation current (TOGGLE_EXPAND "A")) /\
    mindMapReducer s1 UNDO = Ok s2 /\
    nodes s2 = Some current /\
    mindMapReducer s2 REDO = Ok s3 /\
    nodes s3 = Some (applyMutation current (TOGGLE_EXPAND "A")).
Proof.
  apply (undo_redo_after_action sampleState (TOGGLE_EXPAND "A")).
  - exact sampleState_reachable.
  - discriminate.
  - reflexivity.
Defined.

(** C4: in a state of the store whose pointer is below the last history
    index, a mutating action keeps the history entries up to and including
    the pointer, appends the new snapshot and moves the pointer to the last
    index; a Redo that follows changes nothing. *)
Theorem action_after_undo_discards_redo
    (s : MindMapState) (action : MindMapAction)
    (Hreach : reachable s)
    (Hundone : historyPointer s < js_length (history s) - 1)
    (Hmut : isMutating action = true) :
  exists current s',
    nodes s = Some current /\
    mindMapReducer s action = Ok s' /\
    nodes s' = Some (applyMutation current action) /\
    history s' =
      firstn (Z.to_nat (historyPointer s + 1)) (history s)
      ++ [applyMutation current action] /\
    historyPointer s' = js_length (history s') - 1 /\
    js_length (history s') <= js_length (history s) /\
    mindMapReducer s' REDO = Ok s'.
Proof.
  assert (Hsnap : history s <> []).
  { destruct (reachable_invariant s Hreach) as [Hlow _].
    intro E. rewrite E in Hundone. unfold js_length in Hundone.
    simpl in Hundone. lia. }
  destruct (reachable_nodes_defined s Hreach Hsnap)
    as (Hv & current & Hn & Hget).
  set (produced := applyMutation current action).
  destruct (pushSnapshot_history s produced Hv) as (Hh & Hp & Hl).
  exists current, (pushSnapshot s produced).
  split; [exact Hn|].
  split; [now apply reducer_mutating|].
  split; [reflexivity|].
  split; [exact Hh|].
  split; [lia|].
  split; [lia|].
  cbn [mindMapReducer].
  assert (Hredo : Z.min (js_length (history (pushSnapshot s produced)) - 1)
                        (historyPointer (pushSnapshot s produced) + 1)
                  = historyPointer (pushSnapshot s produced)) by lia.
  rewrite Hredo.
  assert (Hg : js_get (history (pushSnapshot s produced))
                      (historyPointer (pushSnapshot s produced))
               = Some produced).
  { rewrite pushSnapshot_pointer. unfold pushSnapshot, js_push. cbn [history].
    apply js_get_last. }
  rewrite Hg. reflexivity.
Qed.

Lemma action_after_undo_discards_redo_witness :
  exists current s',
    nodes sampleUndone = Some current /\
    mindMapReducer sampleUndone (UPDATE_NODE_TEXT "B" "beta") = Ok s' /\
    nodes s' = Some (applyMutation current (UPDATE_NODE_TEXT "B" "beta")) /\
    history s' =
      firstn (Z.to_nat (historyPointer sampleUndone + 1)) (history sampleUndone)
      ++ [applyMutation current (UPDATE_NODE_TEXT "B" "beta")] /\
    historyPointer s' = js_length (history s') - 1 /\
    js_length (history s') <= js_length (history sampleUndone) /\
    mindMapReducer s' REDO = Ok s'.
Proof.
  apply (action_after_undo_discards_redo sampleUndone
           (UPDATE_NODE_TEXT "B" "beta")).
  - exact sampleUndone_reachable.
  - vm_compute. reflexivity.
  - reflexivity.
Defined.

(** C10: UNDO and REDO read [history] at the clamped pointer without
    checking that the history is non-empty. From a state with at least one
    snapshot and a valid pointer they yield a state whose pointer is valid
    again and whose forest is the history entry at that pointer. In the
    initial state (empty history, pointer -1) the read is out of range,
    [history[0]] for UNDO and [history[-1]] for REDO, and leaves [nodes]
    undefined. *)
Theorem undo_redo_need_snapshot
    (s : MindMapState) (Hsnap : history s <> []) (Hvalid : validPointer s) :
  (forall action, action = UNDO \/ action = REDO ->
     exists s' current,
       mindMapReducer s action = Ok s' /\
       validPointer s' /\
       history s' = history s /\
       nodes s' = Some current /\
       js_get (history s') (historyPointer s') = Some current) /\
  (history initialState = [] /\ historyPointer initialState = -1 /\
   mindMapReducer initialState UNDO = Ok (mkState None [] 0) /\
   js_get (history initialState) 0 = None /\
   mindMapReducer initialState REDO = Ok (mkState None [] (-1)) /\
   js_get (history initialState) (-1) = None).
Proof.
  split; [|repeat split].
  intros action Ha. destruct Hvalid as [H0 H1].
  destruct Ha as [-> | ->]; cbn [mindMapReducer].
  - assert (Hv : 0 <= Z.max 0 (historyPointer s - 1) < js_length (history s))
      by lia.
    destruct (js_get_valid _ _ Hv) as [x Hx].
    eexists _, x. split; [reflexivity|].
    unfold validPointer. cbn [history historyPointer nodes].
    repeat split; try lia; exact Hx.
  - assert (Hv : 0 <= Z.min (js_length (history s) - 1) (historyPointer s + 1)
                 < js_length (history s)) by lia.
    destruct (js_get_valid _ _ Hv) as [x Hx].
    eexists _, x. split; [reflexivity|].
    unfold validPointer. cbn [history historyPointer nodes].
    repeat split; try lia; exact Hx.
Qed.

Lemma undo_redo_need_snapshot_witness :
  history sampleUndone <> [] /\ validPointer sampleUndone /\
  exists s' current,
    mindMapReducer sampleUndone REDO = Ok s' /\
    validPointer s' /\
    history s' = history sampleUndone /\
    nodes s' = Some current /\
    js_get (history s') (historyPointer s') = Some current.
Proof.
  assert (Hsnap : history sampleUndone <> []) by discriminate.
  assert (Hvalid : validPointer sampleUndone)
    by (unfold validPointer; vm_compute; split; [discriminate|reflexivity]).
  split; [exact Hsnap|]. split; [exact Hvalid|].
  apply (proj1 (undo_redo_need_snapshot sampleUndone Hsnap Hvalid) REDO).
  now right.
Defined.

(** ** Tree utilities *)

(** C5: on an id that occurs nowhere in the forest, [updateNodeRecursive]
    (with any update function) and [deleteNodeRecursive] return a forest
    equal to the one they were given. *)
Theorem missing_id_is_noop
    (nodes : Forest) (target : string)
    (updateFn : MindMapNode -> MindMapNode)
    (Habsent : ~ In target (ids nodes)) :
  updateNodeRecursive nodes target updateFn = nodes /\
  deleteNodeRecursive nodes target = nodes.
Proof.
  split.
  - now apply updateNodeRecursive_absent.
  - now apply deleteNodeRecursive_absent.
Qed.

Lemma missing_id_is_noop_witness :
  ~ In "Z" (ids sampleForest) /\
  updateNodeRecursive sampleForest "Z" toggleExpand = sampleForest /\
  deleteNodeRecursive sampleForest "Z" = sampleForest.
Proof.
  assert (H : ~ In "Z" (ids sampleForest)).
  { simpl. intros [H|[H|[H|[]]]]; discriminate. }
  split; [exact H|].
  apply (missing_id_is_noop sampleForest "Z" toggleExpand H).
Defined.

(** C6: for an id that occurs in the forest, [deleteNodeRecursive] returns
    the forest whose pre-order listing is the original listing without the
    nodes carrying that id and without their descendants, every other node
    keeping its content, its depth and its place; the id no longer occurs,
    and the forest got smaller. Since the listing determines the forest
    ([flatten_inj]) this fixes the result. When ids are unique, as the data
    model requires, no id of a descendant of the deleted node occurs in the
    result. *)
Theorem delete_removes_subtree
    (nodes : Forest) (target : string)
    (Hpresent : In target (ids nodes)) :
  flatten 0 (deleteNodeRecursive nodes target) = prune target (flatten 0 nodes) /\
  ~ In target (ids (deleteNodeRecursive nodes target)) /\
  (List.length (flatten 0 (deleteNodeRecursive nodes target))
   < List.length (flatten 0 nodes))%nat /\
  (forall other,
     flatten 0 other = prune target (flatten 0 nodes) ->
     other = deleteNodeRecursive nodes target) /\
  (NoDup (ids nodes) ->
   forall found x,
     findNodeById nodes target = Some found ->
     In x (ids (children found)) ->
     ~ In x (ids (deleteNodeRecursive nodes target))).
Proof.
  split; [apply flatten_delete_prune|].
  split; [apply deleteNodeRecursive_target_gone|].
  split; [now apply flatten_delete_shrinks|].
  split.
  - intros other E. apply (flatten_inj 0).
    now rewrite flatten_delete_prune.
  - apply delete_descendants_gone.
Qed.

Lemma delete_removes_subtree_witness :
  In "A" (ids sampleForest) /\
  deleteNodeRecursive sampleForest "A" = [sampleC] /\
  flatten 0 (deleteNodeRecursive sampleForest "A")
    = prune "A" (flatten 0 sampleForest) /\
  ~ In "A" (ids (deleteNodeRecursive sampleForest "A")).
Proof.
  assert (H : In "A" (ids sampleForest)) by (simpl; now left).
  split; [exact H|]. split; [reflexivity|].
  destruct (delete_removes_subtree sampleForest "A" H) as (E & G & _).
  split; [exact E|exact G].
Defined.

(** ** AddNode *)

(** C7: AddNode on a state whose forest is [current].
    - Without a parent id the new node is appended after the existing
      roots, which are kept as they are and in order.
    - With the id of a node of the forest, the node [findNodeById] returns
      gets the new node appended to its children and [isExpanded] set; its
      other fields and the earlier children are kept, in order; its
      ancestors keep their content, and every node off the path to it is
      left as it is.
    - With an id that is not in the forest, the forest stays as it is.
    In all three cases the state is the one SetForest yields for the
    resulting forest: the history is cut after the pointer, the forest is
    appended and the pointer moves to the last index. *)
Theorem addNode_behaviour
    (s : MindMapState) (current : Forest) (parent : option string)
    (newNode : MindMapNode) (Hnodes : nodes s = Some current) :
  exists nodes',
    mindMapReducer s (ADD_NODE parent newNode) = Ok (pushSnapshot s nodes') /\
    mindMapReducer s (ADD_NODE parent newNode)
      = mindMapReducer s (SET_NODES nodes') /\
    nodes (pushSnapshot s nodes') = Some nodes' /\
    history (pushSnapshot s nodes')
      = js_slice0 (history s) (historyPointer s + 1) ++ [nodes'] /\
    historyPointer (pushSnapshot s nodes')
      = js_length (history (pushSnapshot s nodes')) - 1 /\
    match parent with
    | None => nodes' = current ++ [newNode]
    | Some pid =>
        match findNodeById current pid with
        | Some parentNode =>
            exists p,
              findNodePath current pid = Some p /\
              nodeAt current p = Some parentNode /\
              nodes' = mutateAt (receiveChild newNode) p current /\
              nodeAt nodes' p = Some (receiveChild newNode parentNode) /\
              children (receiveChild newNode parentNode)
                = children parentNode ++ [newNode] /\
              isExpanded (receiveChild newNode parentNode) = true /\
              content (receiveChild newNode parentNode)
                = set_isExpanded (content parentNode) true /\
              (forall q, incomparable p q ->
                 nodeAt nodes' q = nodeAt current q) /\
              (forall q i r, p = q ++ i :: r ->
                 option_map content (nodeAt nodes' q)
                 = option_map content (nodeAt current q))
        | None => nodes' = current
        end
    end.
Proof.
  exists (addNode current parent newNode).
  cbn [mindMapReducer]. rewrite Hnodes.
  repeat (split; [reflexivity|]).
  destruct parent as [pid|].
  - destruct (findNodeById current pid) as [parentNode|] eqn:Hfind.
    + destruct (addNode_found current pid newNode parentNode Hfind)
        as (p & Hp & Hat & Hadd).
      exists p. split; [exact Hp|]. split; [exact Hat|]. split; [exact Hadd|].
      split; [rewrite Hadd; now apply nodeAt_mutateAt|].
      repeat (split; [reflexivity|]).
      rewrite Hadd. split.
      * intros q Hq. now apply nodeAt_mutateAt_other.
      * intros q i r ->. apply nodeAt_mutateAt_ancestor.
    + now apply addNode_missing.
  - unfold addNode, js_push. now rewrite deepCopy_id.
Qed.

Lemma addNode_behaviour_witness :
  nodes sampleState = Some sampleForest /\
  findNodeById sampleForest "B" = Some sampleB /\
  exists nodes',
    mindMapReducer sampleState (ADD_NODE (Some "B") sampleC)
      = Ok (pushSnapshot sampleState nodes') /\
    nodeAt nodes' [0; 0]%nat = Some (receiveChild sampleC sampleB).
Proof.
  split; [reflexivity|]. split; [reflexivity|].
  destruct (addNode_behaviour sampleState sampleForest (Some "B") sampleC
              eq_refl) as (nodes' & Hstep & _ & _ & _ & _ & Hcase).
  exists nodes'. split; [exact Hstep|].
  change (findNodeById sampleForest "B") with (Some sampleB) in Hcase.
  destruct Hcase as (p & Hp & _ & _ & Hat & _).
  change (findNodePath sampleForest "B") with (Some [0; 0]%nat) in Hp.
  injection Hp as <-. exact Hat.
Defined.

(** ** Malformed AI responses *)

Lemma truthyText_nonempty text : text <> "" -> truthyText (Some text) = Some text.
Proof.
  intro H. unfold truthyText.
  destruct (String.eqb_spec text ""); [contradiction|reflexivity].
Qed.

(** C8, as stated, fails for refine and merge: with a collaborator whose
    answer is not JSON they send their single request and return [null];
    only generate sends a second, corrective request. *)
Lemma refine_and_merge_do_not_retry :
  refineMindMapStructure babblingAI rejectAll "{}" "more" GENERAL
    = (Ok None, [refineRequest "{}" "more" GENERAL]) /\
  mergeDuplicateIdeas babblingAI rejectAll "{}" GENERAL
    = (Ok None, [mergeRequest "{}" GENERAL]) /\
  List.length (snd (refineMindMapStructure babblingAI rejectAll "{}" "more"
                      GENERAL)) <> 2%nat /\
  List.length (snd (mergeDuplicateIdeas babblingAI rejectAll "{}" GENERAL))
    <> 2%nat /\
  List.length (snd (generateMindMapStructure babblingAI rejectAll "more"
                      GENERAL None)) = 2%nat.
Proof. repeat split; discriminate. Qed.

(** C8, amended: when [JSON.parse] rejects the text of the first response,
    generate sends exactly one further request, the corrective prompt built
    from that text, and returns what parses from its answer, [null] when the
    answer has no text or does not parse (an exception of the second call is
    rethrown); refine and merge send no further request and return [null]
    at once. A [null] or an exception leaves the session as it was. *)
Theorem retry_only_in_generate
    (ai : Collaborator) (JSON_parse : string -> option AIMindMapOutput)
    (uuidv4 : IdSource) (s : Session)
    (inputContent mapNodes newInput : string) (mode : MindMapMode)
    (existingMapJson : option string) (text : string)
    (Htext : text <> "") (Hbad : JSON_parse text = None) :
  (ai 0%nat (generateRequest inputContent mode existingMapJson) = Ok (Some text) ->
   snd (generateMindMapStructure ai JSON_parse inputContent mode existingMapJson)
     = [generateRequest inputContent mode existingMapJson;
        reformatRequest mode text] /\
   fst (generateMindMapStructure ai JSON_parse inputContent mode existingMapJson)
     = match ai 1%nat (reformatRequest mode text) with
       | Throws e => Throws e
       | Ok response2 =>
           match truthyText response2 with
           | Some text2 => Ok (JSON_parse text2)
           | None => Ok None
           end
       end) /\
  (ai 0%nat (refineRequest mapNodes newInput mode) = Ok (Some text) ->
   refineMindMapStructure ai JSON_parse mapNodes newInput mode
     = (Ok None, [refineRequest mapNodes newInput mode])) /\
  (ai 0%nat (mergeRequest mapNodes mode) = Ok (Some text) ->
   mergeDuplicateIdeas ai JSON_parse mapNodes mode
     = (Ok None, [mergeRequest mapNodes mode])) /\
  applyAIResponse uuidv4 s (Ok None) = s /\
  (forall e, applyAIResponse uuidv4 s (Throws e) = s).
Proof.
  pose proof (truthyText_nonempty text Htext) as Ht.
  split; [|split; [|split; [|split; reflexivity]]].
  - intro H1. unfold generateMindMapStructure. rewrite H1, Ht, Hbad.
    destruct (ai 1%nat (reformatRequest mode text)) as [response2|e];
      [|split; reflexivity].
    destruct (truthyText response2) as [text2|]; [|split; reflexivity].
    destruct (JSON_parse text2); split; reflexivity.
  - intro H1. unfold refineMindMapStructure, parseOrNull.
    now rewrite H1, Ht, Hbad.
  - intro H1. unfold mergeDuplicateIdeas, parseOrNull.
    now rewrite H1, Ht, Hbad.
Qed.

Lemma retry_only_in_generate_witness :
  generateMindMapStructure babblingAI rejectAll "more" GENERAL None
    = (Ok None, [generateRequest "more" GENERAL None;
                 reformatRequest GENERAL "not json"]) /\
  refineMindMapStructure babblingAI rejectAll "{}" "more" GENERAL
    = (Ok None, [refineRequest "{}" "more" GENERAL]).
Proof.
  assert (Htext : "not json" <> "") by discriminate.
  assert (Hbad : rejectAll "not json" = None) by reflexivity.
  destruct (retry_only_in_generate babblingAI rejectAll sampleIds
              (mkSession sampleState None 0) "more" "{}" "more" GENERAL None
              "not json" Htext Hbad) as (Hgen & Href & _).
  split.
  - destruct (Hgen eq_refl) as [Hsent Hres].
    rewrite (surjective_pairing (generateMindMapStructure _ _ _ _ _)).
    rewrite Hsent, Hres. reflexivity.
  - exact (Href eq_refl).
Defined.

(** ** Selection *)

(** C9 at a failing input: with B, a child of A, selected, deleting A
    removes B from the forest and leaves B selected; deleting the selected
    node itself clears the selection. *)
Theorem delete_keeps_descendant_selected :
  handleDeleteNode (mkSession sampleState (Some sampleB) 0) "A"
    = Ok (mkSession (pushSnapshot sampleState [sampleC]) (Some sampleB) 0) /\
  findNodeById [sampleC] "B" = None /\
  findNodeById sampleForest "B" = Some sampleB /\
  handleDeleteNode (mkSession sampleState (Some sampleA) 0) "A"
    = Ok (mkSession (pushSnapshot sampleState [sampleC]) None 0).
Proof. repeat split. Qed.

(** The selection is cleared exactly when the deleted id is the selected
    node's own. *)
Lemma handleDeleteNode_selection s nodeId current :
  nodes (store s) = Some current ->
  exists s',
    handleDeleteNode s nodeId = Ok s' /\
    store s' = pushSnapshot (store s) (deleteNodeRecursive current nodeId) /\
    selectedNode s' =
      if selectedHasId (selectedNode s) nodeId then None else selectedNode s.
Proof.
  intro Hn. unfold handleDeleteNode, dispatch. cbn [mindMapReducer].
  rewrite Hn. destruct (selectedHasId (selectedNode s) nodeId);
    eexists; repeat split.
Qed.

(** * Further properties *)

(** ** Lookup, update and delete *)

Lemma find_app_first {A} (f : A -> bool) (l1 l2 : list A) :
  find f (l1 ++ l2) =
  match find f l1 with Some x => Some x | None => find f l2 end.
Proof.
  induction l1 as [|a l1 IH]; simpl; [reflexivity|].
  destruct (f a); [reflexivity|exact IH].
Qed.

Lemma allNodes_cons node rest :
  allNodes (node :: rest) =
  node :: allNodes (children node) ++ allNodes rest.
Proof. destruct node; reflexivity. Qed.

(** X1: [findNodeById] returns the first node, in pre-order, whose id is the
    one asked for, and nothing when no node has it. *)
Theorem findNodeById_first_in_preorder (nodes : Forest) (target : string) :
  findNodeById nodes target =
  find (fun node => String.eqb (id node) target) (allNodes nodes).
Proof.
  induction nodes as [|c cs IHc IHcs] using Forest_nested_ind; [reflexivity|].
  rewrite findNodeById_cons, allNodes_cons. cbn [find].
  destruct (String.eqb (id c) target); [reflexivity|].
  rewrite find_app_first, <- IHc, <- IHcs. reflexivity.
Qed.

Lemma update_then_find_target target f nodes :
  keepsId f ->
  findNodeById (updateNodeRecursive nodes target f) target =
  option_map f (findNodeById nodes target).
Proof.
  intro Hf.
  induction nodes as [|c cs IHc IHcs] using Forest_nested_ind; [reflexivity|].
  rewrite updateNodeRecursive_cons, (findNodeById_cons target c cs).
  destruct (String.eqb (id c) target) eqn:E.
  - rewrite findNodeById_cons, Hf, E. reflexivity.
  - rewrite findNodeById_cons. cbn [id children set_children]. rewrite E, IHc.
    destruct (findNodeById (children c) target); [reflexivity|exact IHcs].
Qed.

Lemma update_then_find_other target f nodes other :
  keepsShape f ->
  other <> target ->
  option_map content (findNodeById (updateNodeRecursive nodes target f) other)
  = option_map content (findNodeById nodes other).
Proof.
  intros Hf Hne.
  induction nodes as [|c cs IHc IHcs] using Forest_nested_ind; [reflexivity|].
  rewrite updateNodeRecursive_cons, (findNodeById_cons other c cs).
  destruct (String.eqb_spec (id c) target) as [E|E].
  - rewrite findNodeById_cons. destruct (Hf c) as (-> & _ & ->).
    destruct (String.eqb_spec (id c) other) as [E'|_]; [congruence|].
    destruct (findNodeById (children c) other); [reflexivity|exact IHcs].
  - rewrite findNodeById_cons. cbn [id children set_children].
    destruct (String.eqb (id c) other); [reflexivity|].
    destruct (findNodeById (updateNodeRecursive (children c) target f) other),
             (findNodeById (children c) other); simpl in IHc;
      try discriminate; [exact IHc|exact IHcs].
Qed.

(** X2: after an update whose function keeps id, type and children (as
    the three update functions of the reducer do), looking the target up
    gives the updated image of the node that was found before, and looking
    any other id up gives a node with the content it had before. *)
Theorem update_then_find
    (nodes : Forest) (target : string) (f : MindMapNode -> MindMapNode)
    (Hshape : keepsShape f) :
  findNodeById (updateNodeRecursive nodes target f) target
    = option_map f (findNodeById nodes target) /\
  forall other,
    other <> target ->
    option_map content (findNodeById (updateNodeRecursive nodes target f) other)
    = option_map content (findNodeById nodes other).
Proof.
  split.
  - apply update_then_find_target. intro node. apply Hshape.
  - intros other Hne. now apply update_then_find_other.
Qed.

Lemma update_then_find_witness :
  findNodeById (updateNodeRecursive sampleForest "B" (updateText "beta")) "B"
    = Some (set_text sampleB "beta") /\
  option_map content
    (findNodeById (updateNodeRecursive sampleForest "B" (updateText "beta")) "C")
    = Some (content sampleC).
Proof.
  destruct (update_then_find sampleForest "B" (updateText "beta")
              (keepsShape_updateText "beta")) as [Ht Ho].
  split; [exact Ht|]. apply Ho. discriminate.
Defined.

Lemma updateNodeRecursive_ext target f g nodes :
  (forall node, f node = g node) ->
  updateNodeRecursive nodes target f = updateNodeRecursive nodes target g.
Proof.
  intro H.
  induction nodes as [|c cs IHc IHcs] using Forest_nested_ind; [reflexivity|].
  rewrite !updateNodeRecursive_cons, IHc, IHcs, H. reflexivity.
Qed.

Lemma updateNodeRecursive_id target nodes :
  updateNodeRecursive nodes target (fun node => node) = nodes.
Proof.
  induction nodes as [|c cs IHc IHcs] using Forest_nested_ind; [reflexivity|].
  rewrite updateNodeRecursive_cons, IHc, IHcs, set_children_same.
  destruct (String.eqb (id c) target); reflexivity.
Qed.

Lemma updateNodeRecursive_compose target f g nodes :
  keepsId f ->
  updateNodeRecursive (updateNodeRecursive nodes target f) target g
  = updateNodeRecursive nodes target (fun node => g (f node)).
Proof.
  intro Hf.
  induction nodes as [|c cs IHc IHcs] using Forest_nested_ind; [reflexivity|].
  rewrite (updateNodeRecursive_cons target f c cs).
  rewrite !updateNodeRecursive_cons, IHcs.
  destruct (String.eqb (id c) target) eqn:E.
  - rewrite Hf, E. reflexivity.
  - cbn [id children set_children]. rewrite E, IHc. reflexivity.
Qed.

(** X3: two updates of the same target compose into one, provided the first
    keeps the id; an update function that changes nothing gives back an
    equal forest; and toggling the same node twice restores the forest. *)
Theorem update_twice
    (nodes : Forest) (target : string) (f g : MindMapNode -> MindMapNode)
    (Hid : keepsId f) :
  updateNodeRecursive (updateNodeRecursive nodes target f) target g
    = updateNodeRecursive nodes target (fun node => g (f node)) /\
  updateNodeRecursive nodes target (fun node => node) = nodes /\
  updateNodeRecursive (updateNodeRecursive nodes target toggleExpand) target
    toggleExpand = nodes.
Proof.
  split; [now apply updateNodeRecursive_compose|].
  split; [apply updateNodeRecursive_id|].
  rewrite updateNodeRecursive_compose by (intros []; reflexivity).
  rewrite <- (updateNodeRecursive_id target nodes) at 2.
  apply updateNodeRecursive_ext.
  intros [i t cs p e ty tg st md]. unfold toggleExpand, set_isExpanded. simpl.
  now rewrite negb_involutive.
Qed.

Lemma update_twice_witness :
  updateNodeRecursive
    (updateNodeRecursive sampleForest "A" (updateText "x")) "A" toggleExpand
  = updateNodeRecursive sampleForest "A"
      (fun node => toggleExpand (updateText "x" node)).
Proof.
  apply (update_twice sampleForest "A" (updateText "x") toggleExpand).
  intros []; reflexivity.
Defined.

Lemma deleteNodeRecursive_commute a b nodes :
  deleteNodeRecursive (deleteNodeRecursive nodes a) b
  = deleteNodeRecursive (deleteNodeRecursive nodes b) a.
Proof.
  induction nodes as [|c cs IHc IHcs] using Forest_nested_ind; [reflexivity|].
  rewrite (deleteNodeRecursive_cons a c cs), (deleteNodeRecursive_cons b c cs).
  destruct (String.eqb (id c) a) eqn:Ea, (String.eqb (id c) b) eqn:Eb;
    rewrite ?deleteNodeRecursive_cons; cbn [id children set_children];
    rewrite ?Ea, ?Eb, ?IHc, ?IHcs; reflexivity.
Qed.

(** X4: deletions commute, and deleting the same id a second time changes
    nothing. *)
Theorem delete_commutes_and_is_idempotent (nodes : Forest) (a b : string) :
  deleteNodeRecursive (deleteNodeRecursive nodes a) b
    = deleteNodeRecursive (deleteNodeRecursive nodes b) a /\
  deleteNodeRecursive (deleteNodeRecursive nodes a) a
    = deleteNodeRecursive nodes a.
Proof.
  split; [apply deleteNodeRecursive_commute|].
  apply deleteNodeRecursive_absent, deleteNodeRecursive_target_gone.
Qed.

(** ** Unique ids *)

Lemma ids_app nodes1 nodes2 : ids (nodes1 ++ nodes2) = ids nodes1 ++ ids nodes2.
Proof. unfold ids. apply flat_map_app. Qed.

Lemma ids_cons_node node rest : ids (node :: rest) = ids_node node ++ ids rest.
Proof. reflexivity. Qed.

Lemma ids_node_eq node : ids_node node = id node :: ids (children node).
Proof. destruct node; reflexivity. Qed.

Lemma ids_skeleton d nodes :
  map (fun e => snd (fst e)) (skeleton d nodes) = ids nodes.
Proof.
  revert d.
  induction nodes as [|c cs IHc IHcs] using Forest_nested_ind; intro d;
    [reflexivity|].
  rewrite skeleton_cons, ids_cons. cbn [map fst snd].
  rewrite map_app, IHc, IHcs. reflexivity.
Qed.

Lemma ids_update target f nodes :
  keepsShape f -> ids (updateNodeRecursive nodes target f) = ids nodes.
Proof.
  intro Hf. rewrite <- (ids_skeleton 0), <- (ids_skeleton 0 nodes).
  now rewrite update_skeleton.
Qed.

Lemma NoDup_ids_delete target nodes :
  NoDup (ids nodes) -> NoDup (ids (deleteNodeRecursive nodes target)).
Proof.
  induction nodes as [|c cs IHc IHcs] using Forest_nested_ind; intro Hnd;
    [constructor|].
  rewrite ids_cons in Hnd. apply NoDup_cons_iff in Hnd.
  destruct Hnd as [Hc Hnd].
  pose proof (NoDup_app_remove_l _ _ Hnd) as Hcs.
  pose proof (NoDup_app_remove_r _ _ Hnd) as Hch.
  rewrite deleteNodeRecursive_cons.
  destruct (String.eqb (id c) target); [now apply IHcs|].
  rewrite ids_cons. cbn [id children set_children].
  apply NoDup_cons.
  - intro Hin. apply Hc. apply in_app_iff in Hin. apply in_app_iff.
    destruct Hin as [Hin|Hin]; apply ids_delete_In in Hin; tauto.
  - apply NoDup_app; [now apply IHc|now apply IHcs|].
    intros x Hx Hx'. apply ids_delete_In in Hx, Hx'.
    now apply (NoDup_app_disjoint _ _ x Hnd).
Qed.

Lemma ids_list_alter (g : MindMapNode -> MindMapNode) extra :
  forall l i c,
    nth_error l i = Some c ->
    Permutation (ids_node (g c)) (extra ++ ids_node c) ->
    Permutation (ids (list_alter g i l)) (extra ++ ids l).
Proof.
  induction l as [|x l IH]; intros [|i] c Hnth Hperm; try discriminate.
  - injection Hnth as ->. cbn [list_alter]. rewrite !ids_cons_node.
    rewrite app_assoc. now apply Permutation_app_tail.
  - cbn [list_alter]. rewrite !ids_cons_node.
    eapply perm_trans; [|apply Permutation_app_swap_app].
    apply Permutation_app_head. eapply IH; eassumption.
Qed.

Lemma ids_mutateAt_node newNode p :
  forall node found,
    nodeAt_node node p = Some found ->
    Permutation (ids_node (mutateAt_node (receiveChild newNode) p node))
                (ids_node newNode ++ ids_node node).
Proof.
  induction p as [|i p IH]; intros node found Hat.
  - cbn [mutateAt_node]. rewrite (ids_node_eq (receiveChild newNode node)),
      (ids_node_eq node).
    unfold receiveChild, js_push. cbn [id children set_isExpanded set_children].
    rewrite ids_app, ids_cons_node. cbn [ids flat_map]. rewrite app_nil_r.
    eapply perm_trans; [|apply Permutation_middle].
    apply perm_skip. apply Permutation_app_comm.
  - cbn [mutateAt_node nodeAt_node] in *.
    destruct (nth_error (children node) i) as [c|] eqn:Hnth; [|discriminate].
    rewrite (ids_node_eq (set_children node _)), (ids_node_eq node).
    cbn [id children set_children].
    eapply perm_trans; [|apply Permutation_middle].
    apply perm_skip. eapply ids_list_alter; [exact Hnth|].
    eapply IH. exact Hat.
Qed.

Lemma ids_mutateAt newNode p nodes found :
  nodeAt nodes p = Some found ->
  Permutation (ids (mutateAt (receiveChild newNode) p nodes))
              (ids_node newNode ++ ids nodes).
Proof.
  destruct p as [|i p]; [discriminate|]. cbn [nodeAt mutateAt].
  destruct (nth_error nodes i) as [c|] eqn:Hnth; [|discriminate].
  intro Hat. eapply ids_list_alter; [exact Hnth|].
  eapply ids_mutateAt_node. exact Hat.
Qed.

Lemma ids_addNode current parent newNode :
  addNode current parent newNode = current \/
  Permutation (ids (addNode current parent newNode))
              (ids_node newNode ++ ids current).
Proof.
  unfold addNode, js_push. rewrite deepCopy_id.
  destruct parent as [pid|].
  - destruct (findNodePath current pid) as [p|] eqn:E; [|now left].
    destruct (findNodePath_found _ _ _ E) as (found & Hat & _).
    right. eapply ids_mutateAt. exact Hat.
  - right. rewrite ids_app, ids_cons_node. cbn [ids flat_map].
    rewrite app_nil_r. apply Permutation_app_comm.
Qed.

(** X5: the store keeps ids unique. If no id occurs twice in the forest,
    then none does after UpdateText, ToggleExpand, UpdateMetadata or Delete,
    nor after AddNode when the ids of the added node are distinct and occur
    nowhere in the forest. *)
Theorem unique_ids_preserved
    (current : Forest) (action : MindMapAction)
    (Hunique : NoDup (ids current))
    (Hmut : isMutating action = true)
    (Hnotset : forall payload, action <> SET_NODES payload)
    (Hfresh : forall parent newNode,
        action = ADD_NODE parent newNode ->
        NoDup (ids_node newNode) /\
        forall x, In x (ids_node newNode) -> ~ In x (ids current)) :
  NoDup (ids (applyMutation current action)).
Proof.
  destruct action; cbn [applyMutation]; try discriminate.
  - exfalso. now apply (Hnotset payload).
  - destruct (Hfresh parent newNode eq_refl) as [Hn Hdis].
    destruct (ids_addNode current parent newNode) as [-> | Hperm];
      [exact Hunique|].
    eapply Permutation_NoDup; [apply Permutation_sym; exact Hperm|].
    now apply NoDup_app.
  - now rewrite ids_update by apply keepsShape_updateText.
  - now apply NoDup_ids_delete.
  - now rewrite ids_update by apply keepsShape_toggleExpand.
  - now rewrite ids_update by apply keepsShape_updateMetadata.
Qed.

Lemma sampleForest_unique : NoDup (ids sampleForest).
Proof.
  change (ids sampleForest) with ["A"; "B"; "C"].
  repeat (apply NoDup_cons; [simpl; intuition discriminate|]). constructor.
Qed.

Lemma unique_ids_preserved_witness :
  NoDup (ids (applyMutation sampleForest (ADD_NODE (Some "B") sampleD))).
Proof.
  apply (unique_ids_preserved sampleForest (ADD_NODE (Some "B") sampleD)).
  - exact sampleForest_unique.
  - reflexivity.
  - intro payload. discriminate.
  - intros parent newNode [= <- <-]. split.
    + change (ids_node sampleD) with ["D"].
      apply NoDup_cons; [simpl; tauto|constructor].
    + intros x [<-|[]] H. simpl in H.
      destruct H as [H|[H|[H|[]]]]; discriminate.
Defined.

(** ** Adding, then looking up *)

Lemma findNodeById_absent nodes target :
  ~ In target (ids nodes) -> findNodeById nodes target = None.
Proof.
  intro H. destruct (findNodeById nodes target) eqn:E; [|reflexivity].
  exfalso. apply H. apply findNodeById_present. congruence.
Qed.

Lemma findNodeById_app nodes1 nodes2 target :
  findNodeById (nodes1 ++ nodes2) target =
  match findNodeById nodes1 target with
  | Some found => Some found
  | None => findNodeById nodes2 target
  end.
Proof.
  induction nodes1 as [|c cs IH]; [reflexivity|].
  cbn [app findNodeById].
  destruct (findNodeById_node target c); [reflexivity|exact IH].
Qed.

Lemma findNodeById_single node :
  findNodeById [node] (id node) = Some node.
Proof. rewrite findNodeById_cons, String.eqb_refl. reflexivity. Qed.

Lemma nth_error_ids l i c x :
  nth_error l i = Some c -> In x (ids_node c) -> In x (ids l).
Proof.
  intros Hnth Hin. apply nth_error_split in Hnth.
  destruct Hnth as (l1 & l2 & -> & _).
  rewrite ids_app, ids_cons_node, !in_app_iff. tauto.
Qed.

Lemma findNodeById_list_alter (g : MindMapNode -> MindMapNode) target :
  forall l i c,
    ~ In target (ids l) ->
    nth_error l i = Some c ->
    findNodeById (list_alter g i l) target = findNodeById [g c] target.
Proof.
  induction l as [|x l IH]; intros [|i] c Habs Hnth; try discriminate.
  - injection Hnth as ->. cbn [list_alter].
    change (g c :: l) with ([g c] ++ l). rewrite findNodeById_app.
    rewrite (findNodeById_absent l).
    + destruct (findNodeById [g c] target); reflexivity.
    + intro H. apply Habs. rewrite ids_cons_node, in_app_iff. tauto.
  - cbn [list_alter nth_error] in *.
    change (x :: list_alter g i l) with ([x] ++ list_alter g i l).
    rewrite findNodeById_app, (findNodeById_absent [x]).
    + apply IH; [|exact Hnth].
      intro H. apply Habs. rewrite ids_cons_node, in_app_iff. tauto.
    + intro H. apply Habs. rewrite ids_cons_node, in_app_iff.
      rewrite ids_cons_node, app_nil_r in H. tauto.
Qed.

Lemma find_in_mutateAt_node newNode p :
  forall node found,
    nodeAt_node node p = Some found ->
    ~ In (id newNode) (ids_node node) ->
    findNodeById [mutateAt_node (receiveChild newNode) p node] (id newNode)
    = Some newNode.
Proof.
  induction p as [|i p IH]; intros node found Hat Habs;
    rewrite ids_node_eq in Habs; rewrite findNodeById_cons.
  - cbn [mutateAt_node]. unfold receiveChild, js_push.
    cbn [id children set_isExpanded set_children].
    destruct (String.eqb_spec (id node) (id newNode)) as [E|_].
    + exfalso. apply Habs. now left.
    + rewrite findNodeById_app, (findNodeById_absent (children node)).
      * now rewrite findNodeById_single.
      * intro H. apply Habs. now right.
  - cbn [mutateAt_node nodeAt_node id children set_children] in *.
    destruct (nth_error (children node) i) as [c|] eqn:Hnth; [|discriminate].
    destruct (String.eqb_spec (id node) (id newNode)) as [E|_].
    + exfalso. apply Habs. now left.
    + rewrite (findNodeById_list_alter _ _ _ _ c);
        [|intro H; apply Habs; now right|exact Hnth].
      rewrite (IH c found Hat); [reflexivity|].
      intro H. apply Habs. right. eapply nth_error_ids; eassumption.
Qed.

Lemma addNode_find_new current parent newNode :
  ~ In (id newNode) (ids current) ->
  findNodeById (addNode current parent newNode) (id newNode) =
  match parent with
  | None => Some newNode
  | Some pid =>
      match findNodeById current pid with
      | Some _ => Some newNode
      | None => None
      end
  end.
Proof.
  intro Hfresh. unfold addNode, js_push. rewrite deepCopy_id.
  destruct parent as [pid|].
  - rewrite (findNodeById_by_path current pid).
    destruct (findNodePath current pid) as [p|] eqn:E.
    + destruct (findNodePath_found _ _ _ E) as (found & Hat & _).
      rewrite Hat.
      destruct p as [|i p]; [discriminate|]. cbn [nodeAt mutateAt] in *.
      destruct (nth_error current i) as [c|] eqn:Hnth; [|discriminate].
      rewrite (findNodeById_list_alter _ _ _ _ c Hfresh Hnth).
      apply (find_in_mutateAt_node newNode p c found Hat).
      intro H. apply Hfresh. eapply nth_error_ids; eassumption.
    + now apply findNodeById_absent.
  - rewrite findNodeById_app, (findNodeById_absent current) by exact Hfresh.
    apply findNodeById_single.
Qed.

(** X6: looking up the id of a node just added. When that id was not in the
    forest, AddNode without a parent or with a parent that is found makes
    [findNodeById] return the new node; with a parent id that is not found
    the node is nowhere in the forest. *)
Theorem add_then_find
    (current : Forest) (parent : option string) (newNode : MindMapNode)
    (Hfresh : ~ In (id newNode) (ids current)) :
  findNodeById (addNode current parent newNode) (id newNode) =
  match parent with
  | None => Some newNode
  | Some pid =>
      match findNodeById current pid with
      | Some _ => Some newNode
      | None => None
      end
  end.
Proof. now apply addNode_find_new. Qed.

Lemma add_then_find_witness :
  findNodeById (addNode sampleForest (Some "B") sampleD) "D" = Some sampleD /\
  findNodeById (addNode sampleForest (Some "Z") sampleD) "D" = None.
Proof.
  assert (H : ~ In (id sampleD) (ids sampleForest)).
  { simpl. intros [H|[H|[H|[]]]]; discriminate. }
  split.
  - exact (add_then_find sampleForest (Some "B") sampleD H).
  - exact (add_then_find sampleForest (Some "Z") sampleD H).
Defined.

(** ** What import builds *)

Lemma aiSize_eq a : aiSize a = S (list_sum (map aiSize (subtopicsOf a))).
Proof. destruct a as [t [l|] p c q]; reflexivity. Qed.

Lemma importAll_ids_Forall uuidv4 l :
  Forall (fun a => forall parent level k,
            ids_node (fst (convertAIMapNodeToMindMapNode uuidv4 a parent level k))
              = map uuidv4 (seq k (aiSize a)) /\
            snd (convertAIMapNodeToMindMapNode uuidv4 a parent level k)
              = (k + aiSize a)%nat) l ->
  forall parent level k,
    ids (fst (importAll uuidv4 l parent level k))
      = map uuidv4 (seq k (list_sum (map aiSize l))) /\
    snd (importAll uuidv4 l parent level k)
      = (k + list_sum (map aiSize l))%nat.
Proof.
  induction 1 as [|a l Ha _ IH]; intros parent level k.
  - simpl. split; [reflexivity|lia].
  - rewrite importAll_cons. cbn [fst snd].
    change (list_sum (map aiSize (a :: l)))
      with (aiSize a + list_sum (map aiSize l))%nat.
    destruct (Ha parent level k) as [Hids Hk]. rewrite ids_cons_node, Hids, Hk.
    destruct (IH parent level (k + aiSize a)%nat) as [Hids' Hk'].
    rewrite Hids', Hk', seq_app, map_app. split; [reflexivity|lia].
Qed.

Lemma convertAI_ids uuidv4 a :
  forall parent level k,
    ids_node (fst (convertAIMapNodeToMindMapNode uuidv4 a parent level k))
      = map uuidv4 (seq k (aiSize a)) /\
    snd (convertAIMapNodeToMindMapNode uuidv4 a parent level k)
      = (k + aiSize a)%nat.
Proof.
  induction a as [a IH] using AIMapNode_nested_ind.
  apply subtopicsOf_Forall in IH.
  intros parent level k.
  pose proof (importAll_ids_Forall uuidv4 (subtopicsOf a) IH
                (Some (uuidv4 k)) (S level) (S k)) as [Hids Hk].
  rewrite convertAI_eq, aiSize_eq.
  destruct (importAll uuidv4 (subtopicsOf a) (Some (uuidv4 k)) (S level) (S k))
    as [cs k'].
  cbn [fst snd] in *. rewrite ids_node_eq. cbn [id children seq map].
  rewrite Hids, Hk. split; [reflexivity|lia].
Qed.

(** X7: import draws one identifier per node, in pre-order and without
    gaps: the ids of the imported forest are the identifiers number [k],
    [k+1], ... of the source, as many as the AI trees have nodes, and the
    counter ends right after them. Hence an identifier source that does not
    repeat itself on that range gives a forest with unique ids. *)
Theorem import_draws_consecutive_ids
    (uuidv4 : IdSource) (l : list AIMapNode) (parent : option string)
    (level k : nat) :
  ids (fst (importAll uuidv4 l parent level k))
    = map uuidv4 (seq k (list_sum (map aiSize l))) /\
  snd (importAll uuidv4 l parent level k)
    = (k + list_sum (map aiSize l))%nat /\
  ((forall i j,
       (k <= i < k + list_sum (map aiSize l))%nat ->
       (k <= j < k + list_sum (map aiSize l))%nat ->
       uuidv4 i = uuidv4 j -> i = j) ->
   NoDup (ids (fst (importAll uuidv4 l parent level k)))).
Proof.
  assert (H : Forall (fun a => forall parent level k,
            ids_node (fst (convertAIMapNodeToMindMapNode uuidv4 a parent level k))
              = map uuidv4 (seq k (aiSize a)) /\
            snd (convertAIMapNodeToMindMapNode uuidv4 a parent level k)
              = (k + aiSize a)%nat) l).
  { apply Forall_forall. intros a _. apply convertAI_ids. }
  destruct (importAll_ids_Forall uuidv4 l H parent level k) as [Hids Hk].
  split; [exact Hids|]. split; [exact Hk|].
  intro Hinj. rewrite Hids.
  apply NoDup_map_NoDup_ForallPairs; [|apply seq_NoDup].
  intros i j Hi Hj. apply in_seq in Hi, Hj. now apply Hinj.
Qed.

Lemma import_draws_consecutive_ids_witness :
  NoDup (ids (fst (importAll sampleIds [debateNode] None 0 0))).
Proof.
  apply (import_draws_consecutive_ids sampleIds [debateNode] None 0 0).
  simpl. intros i j Hi Hj.
  assert (Ei : i = 0%nat \/ i = 1%nat) by lia.
  assert (Ej : j = 0%nat \/ j = 1%nat) by lia.
  destruct Ei as [-> | ->], Ej as [-> | ->]; intro E;
    try reflexivity; discriminate.
Defined.

(** X8: every node that import creates is expanded, has no tags and no
    status; the root of an imported tree carries the parent id it was given,
    and every other node carries the id of the node it hangs under. *)
Theorem import_defaults_and_parent_links
    (uuidv4 : IdSource) (aiNode : AIMapNode) (parent : option string)
    (level k : nat) (p : Path) (found : MindMapNode)
    (Hat : nodeAt_node
             (fst (convertAIMapNodeToMindMapNode uuidv4 aiNode parent level k)) p
           = Some found) :
  isExpanded found = true /\ tags found = [] /\ status found = None /\
  (p = [] -> parentId found = parent) /\
  (forall i c, nth_error (children found) i = Some c ->
               parentId c = Some (id found)).
Proof.
  revert parent level k p found Hat.
  induction aiNode as [a IH] using AIMapNode_nested_ind.
  apply subtopicsOf_Forall in IH. rewrite Forall_forall in IH.
  intros parent level k p found. rewrite convertAI_fst.
  destruct p as [|i p]; cbn [nodeAt_node children].
  - intros [= <-]. cbn [isExpanded tags status parentId children id].
    repeat split. intros i c Hc.
    apply importAll_nth in Hc. destruct Hc as (x & k1 & _ & ->).
    now rewrite convertAI_fst.
  - destruct (nth_error _ i) as [c|] eqn:E; [|discriminate].
    apply importAll_nth in E. destruct E as (x & k1 & Hin & ->).
    intro H. destruct (IH x Hin _ _ _ _ _ H) as (He & Ht & Hs & _ & Hc).
    repeat split; try assumption. discriminate.
Qed.

Lemma import_defaults_and_parent_links_witness :
  exists found,
    nodeAt_node
      (fst (convertAIMapNodeToMindMapNode sampleIds debateNode None 0 0))
      [0%nat] = Some found /\
    isExpanded found = true /\ tags found = [] /\ status found = None.
Proof.
  eexists. split; [reflexivity|].
  destruct (import_defaults_and_parent_links sampleIds debateNode None 0 0
              [0%nat] _ eq_refl) as (He & Ht & Hs & _).
  repeat split; assumption.
Defined.

Lemma outline_app d nodes1 nodes2 :
  outline d (nodes1 ++ nodes2) = outline d nodes1 ++ outline d nodes2.
Proof. unfold outline, flatten. rewrite flat_map_app, map_app. reflexivity. Qed.

Lemma outline_single d node :
  outline d [node] = (d, text node) :: outline (S d) (children node).
Proof.
  unfold outline. rewrite flatten_cons. cbn [map fst snd flatten flat_map].
  rewrite app_nil_r. destruct node; reflexivity.
Qed.

Lemma export_subtopics node :
  subtopicsOf (convertMindMapNodeToAIMapNode node)
  = map convertMindMapNodeToAIMapNode (children node).
Proof. destruct node; reflexivity. Qed.

Lemma export_title node : title (convertMindMapNodeToAIMapNode node) = text node.
Proof. destruct node; reflexivity. Qed.

(** X9: the round trip in the other direction. Importing the export of a
    node gives a tree with the same shape and the same text at every node
    (ids, flags and metadata apart). *)
Theorem import_export_keeps_outline
    (uuidv4 : IdSource) (node : MindMapNode) (parent : option string)
    (level k d : nat) :
  outline d [fst (convertAIMapNodeToMindMapNode uuidv4
                    (convertMindMapNodeToAIMapNode node) parent level k)]
  = outline d [node].
Proof.
  revert parent level k d.
  induction node as [n IH] using MindMapNode_nested_ind.
  intros parent level k d.
  rewrite convertAI_fst, !outline_single, export_subtopics, export_title.
  cbn [text children]. f_equal.
  generalize (Some (uuidv4 k)) (S level) (S k).
  induction IH as [|c cs Hc _ IHcs]; intros par lvl k1; [reflexivity|].
  cbn [map]. rewrite importAll_cons. cbn [fst].
  change (c :: cs) with ([c] ++ cs).
  match goal with
  | |- outline _ (?x :: ?l) = _ => change (x :: l) with ([x] ++ l)
  end.
  rewrite !outline_app, Hc, IHcs. reflexivity.
Qed.

(** ** The history as a linear log *)

Lemma reachable_empty_pointer s :
  reachable s -> history s = [] -> historyPointer s <= 0.
Proof.
  induction 1 as [|s action s' _ IH Hstep]; [simpl; lia|].
  destruct action; simpl in Hstep;
    try (destruct (nodes s); [|discriminate]);
    injection Hstep as <-;
    try (unfold pushSnapshot, js_push; simpl; intro E;
         now destruct (js_slice0 (history s) (historyPointer s + 1))).
  - simpl. intro E. specialize (IH E). lia.
  - simpl. intro E. rewrite E. unfold js_length. simpl. lia.
Qed.

Lemma store_invariant_aux s :
  reachable s ->
  -1 <= historyPointer s /\
  (history s <> [] ->
   validPointer s /\ nodes s = js_get (history s) (historyPointer s)) /\
  (history s = [] -> historyPointer s <= 0).
Proof.
  intro Hr. destruct (reachable_invariant s Hr) as [Hlow Hinv].
  split; [exact Hlow|]. split; [exact Hinv|].
  now apply reachable_empty_pointer.
Qed.

(** X10: the invariant of the store. In every state reachable from the
    initial one the pointer is at least -1; once the history holds a
    snapshot the pointer is a valid index and the current forest is the
    history entry at the pointer; while the history is empty the pointer is
    -1 or 0. *)
Theorem store_invariant (s : MindMapState) (Hreach : reachable s) :
  -1 <= historyPointer s /\
  (history s <> [] ->
   validPointer s /\
   exists current,
     nodes s = Some current /\
     js_get (history s) (historyPointer s) = Some current) /\
  (history s = [] -> historyPointer s <= 0).
Proof.
  split; [apply (reachable_invariant s Hreach)|].
  split.
  - now apply reachable_nodes_defined.
  - now apply reachable_empty_pointer.
Qed.

Lemma store_invariant_witness :
  validPointer sampleUndone /\
  nodes sampleUndone = js_get (history sampleUndone) (historyPointer sampleUndone).
Proof.
  destruct (store_invariant sampleUndone sampleUndone_reachable)
    as (_ & H & _).
  destruct H as (Hv & current & Hn & Hg); [discriminate|].
  split; [exact Hv|]. now rewrite Hn, Hg.
Defined.

Lemma step_stays_good s action :
  history s <> [] -> storeInvariant s ->
  exists s',
    mindMapReducer s action = Ok s' /\ history s' <> [] /\ storeInvariant s'.
Proof.
  intros Hne Hinv.
  destruct (proj2 Hinv Hne) as [Hv Hn].
  destruct (js_get_valid _ _ Hv) as [current Hc]. rewrite Hc in Hn.
  assert (Hstep : exists s', mindMapReducer s action = Ok s' /\ history s' <> []).
  { destruct action; cbn [mindMapReducer]; rewrite ?Hn;
      try (eexists; split; [reflexivity|];
           unfold pushSnapshot, js_push; simpl;
           now destruct (js_slice0 (history s) (historyPointer s + 1)));
      eexists; split; try reflexivity; exact Hne. }
  destruct Hstep as (s' & Hstep & Hne').
  exists s'. split; [exact Hstep|]. split; [exact Hne'|].
  eapply reducer_invariant; eassumption.
Qed.

Lemma run_stays_good actions :
  forall s,
    history s <> [] -> storeInvariant s ->
    exists s',
      runActions s actions = Ok s' /\ history s' <> [] /\ storeInvariant s'.
Proof.
  induction actions as [|action rest IH]; intros s Hne Hinv.
  - exists s. split; [reflexivity|]. split; assumption.
  - destruct (step_stays_good s action Hne Hinv) as (s1 & Hstep & Hne1 & Hinv1).
    cbn [runActions]. rewrite Hstep. now apply IH.
Qed.

(** X11: once the first-render effect has seeded the history, no sequence
    of dispatches makes the reducer throw or leaves the forest undefined:
    the run ends in a state with a forest and a valid pointer. Without the
    seed, UNDO followed by ADD_NODE throws. *)
Theorem seeded_store_never_throws (actions : list MindMapAction) :
  exists seeded,
    initializeHistory initialState = Ok seeded /\
    history seeded = [[]] /\
    (exists s' current,
        runActions seeded actions = Ok s' /\
        nodes s' = Some current /\
        validPointer s') /\
    runActions initialState [UNDO; ADD_NODE None sampleC] = Throws SyntaxError.
Proof.
  exists (pushSnapshot initialState []).
  split; [reflexivity|]. split; [reflexivity|]. split; [|reflexivity].
  destruct (run_stays_good actions (pushSnapshot initialState []))
    as (s' & Hrun & Hne & Hinv).
  - discriminate.
  - apply pushSnapshot_invariant.
  - destruct (proj2 Hinv Hne) as [Hv Hn].
    destruct (js_get_valid _ _ Hv) as [current Hc].
    exists s', current. split; [exact Hrun|]. split; [congruence|exact Hv].
Qed.

(** X12: Undo and Redo cancel. In a reachable state where the Undo button
    is enabled, UNDO followed by REDO gives back the very same state; where
    the Redo button is enabled, REDO followed by UNDO does. *)
Theorem undo_redo_cancel (s : MindMapState) (Hreach : reachable s) :
  (canUndo s = true -> runActions s [UNDO; REDO] = Ok s) /\
  (canRedo s = true -> runActions s [REDO; UNDO] = Ok s).
Proof.
  destruct (store_invariant_aux s Hreach) as (Hlow & Hinv & Hemp).
  unfold canUndo, canRedo.
  split; intro Hcan; apply Z.ltb_lt in Hcan.
  - assert (Hne : history s <> []) by (intro E; specialize (Hemp E); lia).
    destruct (Hinv Hne) as [[H0 H1] Hn].
    destruct s as [n h p]. cbn [runActions mindMapReducer history historyPointer
                                 nodes] in *.
    replace (Z.min (js_length h - 1) (Z.max 0 (p - 1) + 1)) with p by lia.
    now rewrite <- Hn.
  - assert (Hne : history s <> []).
    { intro E. rewrite E in Hcan. unfold js_length in Hcan. simpl in Hcan. lia. }
    destruct (Hinv Hne) as [[H0 H1] Hn].
    destruct s as [n h p]. cbn [runActions mindMapReducer history historyPointer
                                 nodes] in *.
    replace (Z.max 0 (Z.min (js_length h - 1) (p + 1) - 1)) with p by lia.
    now rewrite <- Hn.
Qed.

Lemma undo_redo_cancel_witness :
  runActions sampleUndone [REDO; UNDO] = Ok sampleUndone.
Proof.
  apply (proj2 (undo_redo_cancel sampleUndone sampleUndone_reachable)).
  reflexivity.
Defined.

(** X13: a disabled history button would do nothing anyway. In a reachable
    state with at least one snapshot, UNDO where [canUndo] is false and REDO
    where [canRedo] is false return the state unchanged. *)
Theorem disabled_history_buttons_are_noops
    (s : MindMapState) (Hreach : reachable s) (Hsnap : history s <> []) :
  (canUndo s = false -> mindMapReducer s UNDO = Ok s) /\
  (canRedo s = false -> mindMapReducer s REDO = Ok s).
Proof.
  destruct (store_invariant_aux s Hreach) as (_ & Hinv & _).
  destruct (Hinv Hsnap) as [[H0 H1] Hn].
  unfold canUndo, canRedo.
  split; intro Hcan; apply Z.ltb_ge in Hcan;
    destruct s as [n h p];
    cbn [mindMapReducer history historyPointer nodes] in *.
  - replace (Z.max 0 (p - 1)) with p by lia. now rewrite <- Hn.
  - replace (Z.min (js_length h - 1) (p + 1)) with p by lia. now rewrite <- Hn.
Qed.

Lemma disabled_history_buttons_are_noops_witness :
  canUndo sampleUndone = false /\ mindMapReducer sampleUndone UNDO = Ok sampleUndone.
Proof.
  split; [reflexivity|].
  assert (Hsnap : history sampleUndone <> []) by discriminate.
  apply (proj1 (disabled_history_buttons_are_noops sampleUndone
                  sampleUndone_reachable Hsnap)).
  reflexivity.
Defined.

Lemma runActions_app actions1 actions2 :
  forall s,
    runActions s (actions1 ++ actions2) =
    match runActions s actions1 with
    | Ok s' => runActions s' actions2
    | Throws e => Throws e
    end.
Proof.
  induction actions1 as [|a rest IH]; intro s; [reflexivity|].
  cbn [app runActions]. destruct (mindMapReducer s a); [apply IH|reflexivity].
Qed.

Lemma run_undos k :
  forall s,
    validPointer s ->
    nodes s = js_get (history s) (historyPointer s) ->
    Z.of_nat k <= historyPointer s ->
    runActions s (repeat UNDO k) =
    Ok (mkState (js_get (history s) (historyPointer s - Z.of_nat k))
                (history s) (historyPointer s - Z.of_nat k)).
Proof.
  induction k as [|k IH]; intros s Hv Hn Hk.
  - cbn [repeat runActions]. rewrite Z.sub_0_r, <- Hn. now destruct s.
  - cbn [repeat runActions mindMapReducer].
    destruct Hv as [H0 H1].
    replace (Z.max 0 (historyPointer s - 1)) with (historyPointer s - 1) by lia.
    rewrite IH; cbn [history historyPointer nodes];
      [|unfold validPointer; cbn [history historyPointer]; lia|reflexivity|lia].
    replace (historyPointer s - 1 - Z.of_nat k)
      with (historyPointer s - Z.of_nat (S k)) by lia.
    reflexivity.
Qed.

Lemma run_redos k :
  forall s,
    validPointer s ->
    nodes s = js_get (history s) (historyPointer s) ->
    historyPointer s + Z.of_nat k <= js_length (history s) - 1 ->
    runActions s (repeat REDO k) =
    Ok (mkState (js_get (history s) (historyPointer s + Z.of_nat k))
                (history s) (historyPointer s + Z.of_nat k)).
Proof.
  induction k as [|k IH]; intros s Hv Hn Hk.
  - cbn [repeat runActions]. rewrite Z.add_0_r, <- Hn. now destruct s.
  - cbn [repeat runActions mindMapReducer].
    destruct Hv as [H0 H1].
    replace (Z.min (js_length (history s) - 1) (historyPointer s + 1))
      with (historyPointer s + 1) by lia.
    rewrite IH; cbn [history historyPointer nodes];
      [|unfold validPointer; cbn [history historyPointer]; lia|reflexivity|lia].
    replace (historyPointer s + 1 + Z.of_nat k)
      with (historyPointer s + Z.of_nat (S k)) by lia.
    reflexivity.
Qed.

Lemma firstn_prefix_of_snapshot {A} (h : list A) (x : A) (n : nat) :
  (n <= List.length h)%nat -> firstn n (firstn n h ++ [x]) = firstn n h.
Proof.
  intro H. rewrite firstn_app, length_firstn, Nat.min_l by exact H.
  rewrite Nat.sub_diag, firstn_firstn, Nat.min_id. apply app_nil_r.
Qed.

Lemma run_mutating actions :
  forall s,
    Forall (fun a => isMutating a = true) actions ->
    validPointer s ->
    nodes s = js_get (history s) (historyPointer s) ->
    exists s',
      runActions s actions = Ok s' /\
      validPointer s' /\
      nodes s' = js_get (history s') (historyPointer s') /\
      historyPointer s' = historyPointer s + js_length actions /\
      firstn (Z.to_nat (historyPointer s + 1)) (history s')
        = firstn (Z.to_nat (historyPointer s + 1)) (history s).
Proof.
  induction actions as [|a rest IH]; intros s Hall Hv Hn.
  - exists s. unfold js_length. simpl. repeat split; try apply Hv; try lia.
    exact Hn.
  - apply Forall_cons_iff in Hall. destruct Hall as [Ha Hrest].
    destruct (js_get_valid _ _ Hv) as [current Hc]. rewrite Hc in Hn.
    cbn [runActions]. rewrite (reducer_mutating s current a Hn Ha).
    set (s1 := pushSnapshot s (applyMutation current a)).
    destruct (pushSnapshot_history s (applyMutation current a) Hv)
      as (Hh & Hp & Hl). fold s1 in Hh, Hp, Hl.
    assert (Hv1 : validPointer s1) by (unfold validPointer; destruct Hv; lia).
    assert (Hn1 : nodes s1 = js_get (history s1) (historyPointer s1)).
    { apply (proj2 (pushSnapshot_invariant s (applyMutation current a))).
      subst s1. unfold pushSnapshot, js_push. simpl.
      now destruct (js_slice0 (history s) (historyPointer s + 1)). }
    destruct (IH s1 Hrest Hv1 Hn1) as (s' & Hrun & Hv' & Hn' & Hp' & Hpre).
    exists s'. split; [exact Hrun|]. split; [exact Hv'|]. split; [exact Hn'|].
    split.
    + rewrite Hp', Hp. unfold js_length. cbn [List.length]. lia.
    + destruct Hv as [H0 H1]. unfold js_length in H1.
      assert (E : firstn (Z.to_nat (historyPointer s + 1))
                    (firstn (Z.to_nat (historyPointer s1 + 1)) (history s'))
                  = firstn (Z.to_nat (historyPointer s + 1))
                      (firstn (Z.to_nat (historyPointer s1 + 1)) (history s1)))
        by now rewrite Hpre.
      rewrite !firstn_firstn, Nat.min_l in E by lia.
      rewrite E, Hh. apply firstn_prefix_of_snapshot. lia.
Qed.

(** X14: the history is a faithful linear log. From a reachable state with
    at least one snapshot, any number of mutating actions followed by as
    many UNDOs ends with the forest and the pointer the state started with,
    and as many REDOs after that end in exactly the state the actions had
    produced. *)
Theorem undo_all_then_redo_all
    (s : MindMapState) (actions : list MindMapAction)
    (Hreach : reachable s) (Hsnap : history s <> [])
    (Hmut : Forall (fun a => isMutating a = true) actions) :
  (exists undone,
      runActions s (actions ++ repeat UNDO (List.length actions)) = Ok undone /\
      nodes undone = nodes s /\
      historyPointer undone = historyPointer s) /\
  runActions s (actions ++ repeat UNDO (List.length actions)
                        ++ repeat REDO (List.length actions))
    = runActions s actions.
Proof.
  destruct (store_invariant_aux s Hreach) as (_ & Hinv & _).
  destruct (Hinv Hsnap) as [Hv Hn].
  destruct (run_mutating actions s Hmut Hv Hn)
    as (s' & Hrun & Hv' & Hn' & Hp' & Hpre).
  unfold js_length in Hp'.
  pose proof Hv as [Hv0 Hv1]. pose proof Hv' as [Hv0' Hv1'].
  assert (Hundo : runActions s' (repeat UNDO (List.length actions))
                  = Ok (mkState (nodes s) (history s') (historyPointer s))).
  { rewrite run_undos by (try assumption; lia).
    replace (historyPointer s' - Z.of_nat (List.length actions))
      with (historyPointer s) by lia.
    f_equal. f_equal. rewrite Hn.
    rewrite <- (js_get_firstn (history s') (Z.to_nat (historyPointer s + 1)))
      by lia.
    rewrite Hpre. apply js_get_firstn. lia. }
  split.
  - eexists. rewrite runActions_app, Hrun. cbn beta iota. rewrite Hundo.
    repeat split.
  - rewrite runActions_app, Hrun. cbn beta iota.
    rewrite runActions_app, Hundo. cbn beta iota.
    rewrite run_redos; cbn [history historyPointer nodes].
    + replace (historyPointer s + Z.of_nat (List.length actions))
        with (historyPointer s') by lia.
      rewrite <- Hn'. now destruct s'.
    + unfold validPointer. cbn [history historyPointer]. lia.
    + rewrite Hn. rewrite <- (js_get_firstn (history s')
                               (Z.to_nat (historyPointer s + 1))) by lia.
      rewrite Hpre. symmetry. apply js_get_firstn. lia.
    + lia.
Qed.

Lemma undo_all_then_redo_all_witness :
  runActions sampleState
    ([DELETE_NODE "B"; TOGGLE_EXPAND "A"] ++ repeat UNDO 2 ++ repeat REDO 2)
  = runActions sampleState [DELETE_NODE "B"; TOGGLE_EXPAND "A"].
Proof.
  assert (Hsnap : history sampleState <> []) by discriminate.
  assert (Hmut : Forall (fun a => isMutating a = true)
                   [DELETE_NODE "B"; TOGGLE_EXPAND "A"])
    by (repeat constructor).
  exact (proj2 (undo_all_then_redo_all sampleState _ sampleState_reachable
                  Hsnap Hmut)).
Defined.

(** X15: toggling the same node twice. From a reachable state with at least
    one snapshot, two TOGGLE_EXPAND on the same id end with the forest the
    state had, yet each of them is recorded: the history keeps the entries
    up to the pointer and gets two new ones, the toggled forest and the
    original one, and the pointer moves by two. *)
Theorem toggle_twice_records_two_snapshots
    (s : MindMapState) (nodeId : string)
    (Hreach : reachable s) (Hsnap : history s <> []) :
  exists current s2,
    nodes s = Some current /\
    runActions s [TOGGLE_EXPAND nodeId; TOGGLE_EXPAND nodeId] = Ok s2 /\
    nodes s2 = Some current /\
    history s2 =
      firstn (Z.to_nat (historyPointer s + 1)) (history s)
      ++ [updateNodeRecursive current nodeId toggleExpand; current] /\
    historyPointer s2 = historyPointer s + 2.
Proof.
  destruct (reachable_nodes_defined s Hreach Hsnap)
    as (Hv & current & Hn & _).
  set (toggled := updateNodeRecursive current nodeId toggleExpand).
  destruct (pushSnapshot_history s toggled Hv) as (Hh & Hp & Hl).
  set (s1 := pushSnapshot s toggled) in *.
  assert (Hv1 : validPointer s1) by (unfold validPointer; destruct Hv; lia).
  assert (Hback : updateNodeRecursive toggled nodeId toggleExpand = current).
  { subst toggled.
    rewrite updateNodeRecursive_compose by (intros []; reflexivity).
    rewrite <- (updateNodeRecursive_id nodeId current) at 2.
    apply updateNodeRecursive_ext.
    intros [i t cs p e ty tg st md]. unfold toggleExpand, set_isExpanded.
    simpl. now rewrite negb_involutive. }
  destruct (pushSnapshot_history s1 current Hv1) as (Hh2 & Hp2 & _).
  exists current, (pushSnapshot s1 current).
  split; [exact Hn|]. split.
  - cbn [runActions mindMapReducer]. rewrite Hn. fold toggled. fold s1.
    cbn [nodes s1 pushSnapshot]. unfold s1 at 1. cbn [nodes pushSnapshot].
    now rewrite Hback.
  - split; [reflexivity|]. split; [|lia].
    rewrite Hh2, Hp, Hh.
    destruct Hv as [H0 H1]. unfold js_length in H1.
    rewrite firstn_all2.
    + now rewrite <- app_assoc.
    + rewrite length_app, length_firstn. simpl. lia.
Qed.

Lemma toggle_twice_records_two_snapshots_witness :
  exists current s2,
    nodes sampleState = Some current /\
    runActions sampleState [TOGGLE_EXPAND "A"; TOGGLE_EXPAND "A"] = Ok s2 /\
    nodes s2 = Some current /\
    historyPointer s2 = historyPointer sampleState + 2.
Proof.
  assert (Hsnap : history sampleState <> []) by discriminate.
  destruct (toggle_twice_records_two_snapshots sampleState "A"
              sampleState_reachable Hsnap)
    as (current & s2 & Hn & Hrun & Hn2 & _ & Hp).
  exists current, s2. repeat split; assumption.
Defined.

(** ** Acting on one node *)

Lemma keepsId_updateMetadata patch newStatus :
  keepsId (updateMetadata patch newStatus).
Proof. intro node. apply keepsShape_updateMetadata. Qed.

Lemma dispatch_metadata s current nodeId patch newStatus :
  nodes (store s) = Some current ->
  dispatch s (UPDATE_NODE_METADATA nodeId patch newStatus) =
  Ok (mkSession
        (pushSnapshot (store s)
           (updateNodeRecursive current nodeId (updateMetadata patch newStatus)))
        (selectedNode s) (drawn s)).
Proof. intro Hn. unfold dispatch. cbn [mindMapReducer]. now rewrite Hn. Qed.

(** X16: converting a node to a task. When the node is found, no request
    goes to the AI service; one snapshot is pushed in which the node has
    status task and a task "Complete <its text>", not completed, while its
    id, text, children, type and every other metadata key are as before; the
    selection is untouched. *)
Theorem convert_to_task_is_local
    (ask : NodeCollaborator)
    (parseFlashcard : string -> option (option Flashcard))
    (parseSummary : string -> option (option AISummaryOutput))
    (s : Session) (current : Forest) (nodeId : string) (node : MindMapNode)
    (Hnodes : nodes (store s) = Some current)
    (Hfind : findNodeById current nodeId = Some node) :
  exists s' nodes' node',
    handleConvertNode ask parseFlashcard parseSummary s nodeId ToTask
      = Ok (s', [], ShowModal) /\
    store s' = pushSnapshot (store s) nodes' /\
    selectedNode s' = selectedNode s /\
    findNodeById nodes' nodeId = Some node' /\
    status node' = Some StatusTask /\
    id node' = id node /\ text node' = text node /\
    children node' = children node /\ type node' = type node /\
    metadata node' =
      (let m := match metadata node with
                | Some m => m
                | None => emptyMetadata
                end in
       Some (mkMetadata (pros m) (cons m) (questions m) (flashcard m)
                        (summary m)
                        (Some (mkTask ("Complete " +++ dq +++ text node +++ dq)
                                      false None)))).
Proof.
  unfold handleConvertNode, dispatchThen. rewrite Hnodes, Hfind.
  rewrite (dispatch_metadata s current nodeId _ _ Hnodes).
  eexists _, _, _. split; [reflexivity|]. cbn [store selectedNode].
  split; [reflexivity|]. split; [reflexivity|].
  split.
  { rewrite update_then_find_target by apply keepsId_updateMetadata.
    rewrite Hfind. reflexivity. }
  destruct node as [i t cs p e ty tg st [m|]]; repeat split.
  all: destruct m as [a b c d e' f]; reflexivity.
Qed.

Lemma convert_to_task_is_local_witness :
  exists s' nodes' node',
    handleConvertNode (fun _ => Throws TypeError) (fun _ => None)
      (fun _ => None) (mkSession sampleState None 0) "B" ToTask
      = Ok (s', [], ShowModal) /\
    store s' = pushSnapshot sampleState nodes' /\
    findNodeById nodes' "B" = Some node' /\
    status node' = Some StatusTask.
Proof.
  destruct (convert_to_task_is_local (fun _ => Throws TypeError)
              (fun _ => None) (fun _ => None) (mkSession sampleState None 0)
              sampleForest "B" sampleB eq_refl eq_refl)
    as (s' & nodes' & node' & H1 & H2 & _ & H3 & H4 & _).
  exists s', nodes', node'. repeat split; assumption.
Defined.



(** X18: clarifying questions reach the AI shape. When the node is found
    and the service answers with a list of questions, one snapshot is pushed
    in which the node found carries the questions, with its text and status
    as before, and exporting that node yields the same questions. *)
Theorem questions_are_exported
    (ask : NodeCollaborator)
    (parseQuestions : string -> option (option AIQuestionsOutput))
    (s : Session) (current : Forest) (nodeId : string) (node : MindMapNode)
    (response : string) (q : list string)
    (Hnodes : nodes (store s) = Some current)
    (Hfind : findNodeById current nodeId = Some node)
    (Hask : ask (questionsRequest (text node)) = Ok (Some response))
    (Htext : response <> "")
    (Hparse : parseQuestions response
              = Some (Some (mkQuestionsOutput (Some q)))) :
  exists s' nodes' node',
    handleGenerateClarifyingQuestions ask parseQuestions s nodeId
      = Ok (s', [questionsRequest (text node)], ShowModal) /\
    store s' = pushSnapshot (store s) nodes' /\
    findNodeById nodes' nodeId = Some node' /\
    text node' = text node /\ status node' = status node /\
    aiQuestions (convertMindMapNodeToAIMapNode node') = Some q.
Proof.
  unfold handleGenerateClarifyingQuestions, dispatchThen,
    generateClarifyingQuestions, askOrNull.
  rewrite Hnodes, Hfind, Hask, (truthyText_nonempty response Htext), Hparse.
  cbn [outQuestions].
  rewrite (dispatch_metadata s current nodeId _ _ Hnodes).
  eexists _, _, _. split; [reflexivity|]. cbn [store].
  split; [reflexivity|]. split.
  { rewrite update_then_find_target by apply keepsId_updateMetadata.
    rewrite Hfind. reflexivity. }
  destruct node as [i t cs p e ty tg st md]. repeat split.
Qed.

Lemma questions_are_exported_witness :
  exists s' nodes' node',
    handleGenerateClarifyingQuestions
      (fun _ => Ok (Some "q"))
      (fun _ => Some (Some (mkQuestionsOutput (Some ["why"]))))
      (mkSession sampleState None 0) "B"
      = Ok (s', [questionsRequest "b"], ShowModal) /\
    findNodeById nodes' "B" = Some node' /\
    aiQuestions (convertMindMapNodeToAIMapNode node') = Some ["why"].
Proof.
  assert (Htext : "q" <> "") by discriminate.
  destruct (questions_are_exported
              (fun _ => Ok (Some "q"))
              (fun _ => Some (Some (mkQuestionsOutput (Some ["why"]))))
              (mkSession sampleState None 0) sampleForest "B" sampleB
              "q" ["why"] eq_refl eq_refl eq_refl Htext eq_refl)
    as (s' & nodes' & node' & H1 & _ & H3 & _ & _ & H6).
  exists s', nodes', node'. repeat split; assumption.
Defined.

(** ** Replacing the forest by an AI answer *)

Lemma importAll_ids uuidv4 l parent level k :
  ids (fst (importAll uuidv4 l parent level k))
  = map uuidv4 (seq k (list_sum (map aiSize l))).
Proof.
  apply importAll_ids_Forall.
  apply Forall_forall. intros a _. apply convertAI_ids.
Qed.

Lemma applyAIResponse_selection uuidv4 s r :
  selectedNode (applyAIResponse uuidv4 s r) = selectedNode s.
Proof.
  unfold applyAIResponse.
  destruct r as [[out|]|e]; try reflexivity.
  destruct out as [[l|]]; cbn [aiMap]; [|reflexivity].
  destruct (importAll uuidv4 l None 0 (drawn s)). reflexivity.
Qed.

(** X19: the selection across an AI replacement of the forest. Generate
    clears the selection whether or not the call succeeds; update,
    auto-refine and merge never touch it. So when one of these replaces the
    forest, the selected node stays selected although, the ids being drawn
    afresh, no node of the new forest has its id. *)
Theorem selection_across_ai_replacement
    (ai : Collaborator) (JSON_parse : string -> option AIMindMapOutput)
    (uuidv4 : IdSource) (JSON_stringify : AIMindMapOutput -> string)
    (s : Session) (input : string) (mode : MindMapMode) :
  selectedNode (fst (handleGenerateMindMap ai JSON_parse uuidv4 s input mode))
    = None /\
  selectedNode
    (fst (handleUpdateMindMap ai JSON_parse uuidv4 JSON_stringify s input mode))
    = selectedNode s /\
  selectedNode
    (fst (handleAutoRefine ai JSON_parse uuidv4 JSON_stringify s mode))
    = selectedNode s /\
  selectedNode
    (fst (handleMergeDuplicates ai JSON_parse uuidv4 JSON_stringify s mode))
    = selectedNode s /\
  (forall l sel,
      selectedNode s = Some sel ->
      (forall i, (drawn s <= i < drawn s + list_sum (map aiSize l))%nat ->
                 uuidv4 i <> id sel) ->
      exists nodes',
        nodes (store (applyAIResponse uuidv4 s (Ok (Some (mkOutput (Some l))))))
          = Some nodes' /\
        selectedNode (applyAIResponse uuidv4 s (Ok (Some (mkOutput (Some l)))))
          = Some sel /\
        findNodeById nodes' (id sel) = None).
Proof.
  split; [|split; [|split; [|split]]].
  - unfold handleGenerateMindMap.
    destruct (generateMindMapStructure ai JSON_parse input mode None) as [r sent].
    cbn [fst]. now rewrite applyAIResponse_selection.
  - unfold handleUpdateMindMap.
    destruct (currentMapForAI JSON_stringify s) as [j|]; [|reflexivity].
    destruct (refineMindMapStructure ai JSON_parse j input mode) as [r sent].
    cbn [fst]. apply applyAIResponse_selection.
  - unfold handleAutoRefine, handleUpdateMindMap.
    destruct (currentMapForAI JSON_stringify s) as [j|]; [|reflexivity].
    destruct (refineMindMapStructure ai JSON_parse j "" mode) as [r sent].
    cbn [fst]. apply applyAIResponse_selection.
  - unfold handleMergeDuplicates.
    destruct (currentMapForAI JSON_stringify s) as [j|]; [|reflexivity].
    destruct (mergeDuplicateIdeas ai JSON_parse j mode) as [r sent].
    cbn [fst]. apply applyAIResponse_selection.
  - intros l sel Hsel Hfresh.
    pose proof (importAll_ids uuidv4 l None 0 (drawn s)) as Hids.
    rewrite applyAIResponse_selection.
    unfold applyAIResponse. cbn [aiMap].
    destruct (importAll uuidv4 l None 0 (drawn s)) as [newRootNodes k].
    cbn [fst store nodes pushSnapshot] in *.
    exists newRootNodes. split; [reflexivity|]. split; [exact Hsel|].
    apply findNodeById_absent. rewrite Hids, in_map_iff.
    intros (i & Hi & Hin). apply in_seq in Hin. now apply (Hfresh i).
Qed.

Lemma selection_across_ai_replacement_witness :
  exists nodes',
    nodes (store (applyAIResponse sampleIds
                    (mkSession sampleState (Some sampleB) 0)
                    (Ok (Some (mkOutput (Some [debateNode]))))))
      = Some nodes' /\
    selectedNode (applyAIResponse sampleIds
                    (mkSession sampleState (Some sampleB) 0)
                    (Ok (Some (mkOutput (Some [debateNode])))))
      = Some sampleB /\
    findNodeById nodes' "B" = None.
Proof.
  destruct (selection_across_ai_replacement babblingAI rejectAll sampleIds
              sampleStringify (mkSession sampleState (Some sampleB) 0)
              "more" GENERAL) as (_ & _ & _ & _ & H).
  apply (H [debateNode] sampleB eq_refl).
  simpl. intros i Hi.
  assert (Ei : i = 0%nat \/ i = 1%nat) by lia.
  destruct Ei as [-> | ->]; discriminate.
Defined.

(** ** How many requests the service sends *)



(** ** The response schema *)

(** X21: the response schema does not depend on the mode. The fields the
    DEBATE branch assigns (pros, cons and questions, on the topic items and
    on their subtopic items) are already in [AI_MIND_MAP_SCHEMA] with the
    same value and are assigned in place, so every mode gets a copy equal
    to the base schema, and no read on the way throws. *)
Theorem response_schema_ignores_mode (mode : MindMapMode) :
  getResponseSchemaForMode mode = Ok AI_MIND_MAP_SCHEMA.
Proof. destruct mode; vm_compute; reflexivity. Qed.

(** ** Settling the transcription promise *)

Lemma liveRun_handled events : liveRun true events = (true, []).
Proof.
  induction events as [|ev rest IH]; [reflexivity|].
  cbn [liveRun].
  assert (E : liveStep true ev = (true, [])).
  { destruct ev as [[t c]| | | |]; try reflexivity.
    unfold liveStep. cbn [inputTranscriptionText turnComplete].
    destruct (truthyText t); [reflexivity|]. destruct c; reflexivity. }
  rewrite E, IH. reflexivity.
Qed.

Lemma liveStep_idle ev :
  settles ev = false -> liveStep false ev = (false, []).
Proof.
  destruct ev as [[t c]| | | |]; try discriminate.
  unfold settles, liveStep. cbn [inputTranscriptionText turnComplete].
  destruct (truthyText t); [discriminate|]. destruct c; [discriminate|].
  reflexivity.
Qed.

Lemma liveStep_settles ev :
  settles ev = true ->
  fst (liveStep false ev) = true /\
  List.length (filter isSettlement (snd (liveStep false ev))) = 1%nat.
Proof.
  destruct ev as [[t c]| | | |]; try (intros _; split; reflexivity).
  unfold settles, liveStep. cbn [inputTranscriptionText turnComplete].
  destruct (truthyText t); [intros _; split; reflexivity|].
  destruct c; [intros _; split; reflexivity|discriminate].
Qed.

(** X22: the transcription promise is settled at most once. Whatever
    callbacks fire and in whatever order, the effects are exactly those of
    the first event able to settle (a message with a transcription or with
    turnComplete, an error, a close, a failed connection, the timeout): one
    resolve or reject, with the session closed where that callback closes
    it. Every later event does nothing, and nothing happens at all once the
    flag is set. *)
Theorem transcription_settles_once (events : list LiveEvent) :
  snd (liveRun false events) =
    match find settles events with
    | Some ev => snd (liveStep false ev)
    | None => []
    end /\
  fst (liveRun false events) = isPresent (find settles events) /\
  (List.length (filter isSettlement (snd (liveRun false events))) <= 1)%nat /\
  liveRun true events = (true, []).
Proof.
  assert (H : snd (liveRun false events) =
                match find settles events with
                | Some ev => snd (liveStep false ev)
                | None => []
                end /\
              fst (liveRun false events) = isPresent (find settles events)).
  { induction events as [|ev rest IH]; [split; reflexivity|].
    cbn [liveRun find].
    destruct (settles ev) eqn:E.
    - destruct (liveStep_settles ev E) as [Hf _].
      destruct (liveStep false ev) as [h out]. cbn [fst] in Hf. subst h.
      rewrite liveRun_handled. cbn [fst snd isPresent].
      now rewrite app_nil_r.
    - rewrite (liveStep_idle ev E).
      destruct (liveRun false rest) as [h out]. exact IH. }
  destruct H as [Hout Hflag].
  split; [exact Hout|]. split; [exact Hflag|]. split; [|apply liveRun_handled].
  rewrite Hout. destruct (find settles events) as [ev|] eqn:E; [|simpl; lia].
  apply find_some in E. destruct (liveStep_settles ev (proj2 E)) as [_ ->]. lia.
Qed.

(** ** Add-child and delete, seen from the session *)

(** X23: adding a child with a fresh identifier. If the forest has unique
    ids and the identifier drawn is not among them, then add-child under a
    node that is found pushes one snapshot, consumes exactly one
    identifier, and yields a forest with unique ids in which the new node,
    "New Idea" of type DETAIL with no children, is found under its id. When
    the parent is not found a snapshot equal to the current forest is pushed
    and the identifier is consumed all the same. *)
Theorem addChild_with_fresh_id
    (uuidv4 : IdSource) (s : Session) (current : Forest) (parent : string)
    (Hnodes : nodes (store s) = Some current)
    (Hunique : NoDup (ids current))
    (Hfresh : ~ In (uuidv4 (drawn s)) (ids current)) :
  exists s' nodes',
    handleAddChild uuidv4 s parent = Ok s' /\
    store s' = pushSnapshot (store s) nodes' /\
    drawn s' = S (drawn s) /\
    selectedNode s' = selectedNode s /\
    NoDup (ids nodes') /\
    match findNodeById current parent with
    | Some _ =>
        findNodeById nodes' (uuidv4 (drawn s))
        = Some (mkNode (uuidv4 (drawn s)) "New Idea" [] (Some parent) true
                       DETAIL [] None None)
    | None => nodes' = current
    end.
Proof.
  set (newNode := newIdea (uuidv4 (drawn s)) parent).
  unfold handleAddChild, dispatch. cbn [store mindMapReducer]. rewrite Hnodes.
  fold newNode.
  exists (mkSession (pushSnapshot (store s) (addNode current (Some parent) newNode))
                    (selectedNode s) (S (drawn s))),
         (addNode current (Some parent) newNode).
  repeat (split; [reflexivity|]).
  split.
  - destruct (ids_addNode current (Some parent) newNode) as [-> | Hperm];
      [exact Hunique|].
    eapply Permutation_NoDup; [apply Permutation_sym; exact Hperm|].
    apply NoDup_app; [|exact Hunique|].
    + apply NoDup_cons; [simpl; tauto|constructor].
    + intros x [<-|[]]. exact Hfresh.
  - pose proof (addNode_find_new current (Some parent) newNode Hfresh) as Hfind.
    cbn beta iota in Hfind.
    destruct (findNodeById current parent) eqn:E.
    + exact Hfind.
    + now apply addNode_missing.
Qed.

Lemma addChild_with_fresh_id_witness :
  exists s' nodes',
    handleAddChild sampleIds (mkSession sampleState None 0) "B" = Ok s' /\
    store s' = pushSnapshot sampleState nodes' /\
    NoDup (ids nodes') /\
    findNodeById nodes' "0" = Some (newIdea "0" "B").
Proof.
  assert (Hfresh : ~ In (sampleIds 0%nat) (ids sampleForest)).
  { simpl. intros [H|[H|[H|[]]]]; discriminate. }
  destruct (addChild_with_fresh_id sampleIds (mkSession sampleState None 0)
              sampleForest "B" eq_refl sampleForest_unique Hfresh)
    as (s' & nodes' & H1 & H2 & _ & _ & H5 & H6).
  exists s', nodes'. repeat split; assumption.
Defined.

Lemma undo_after_snapshot s newNodes :
  validPointer s ->
  nodes s = js_get (history s) (historyPointer s) ->
  mindMapReducer (pushSnapshot s newNodes) UNDO =
  Ok (mkState (nodes s) (history (pushSnapshot s newNodes)) (historyPointer s)).
Proof.
  intros Hv Hn.
  destruct (pushSnapshot_history s newNodes Hv) as (Hh & Hp & Hl).
  destruct Hv as [H0 H1].
  cbn [mindMapReducer].
  replace (Z.max 0 (historyPointer (pushSnapshot s newNodes) - 1))
    with (historyPointer s) by lia.
  f_equal. f_equal. rewrite Hn, Hh, js_get_app_l.
  - apply js_get_firstn. lia.
  - unfold js_length in *. rewrite length_firstn. lia.
Qed.

(** X24: deleting through the session, then undoing. With a reachable store
    that holds a snapshot, delete pushes the forest without the id, in which
    the id is no longer found, and clears the selection exactly when the
    selected node has that id. UNDO then brings back the forest as it was,
    deleted subtree included, but not the selection: the history records
    forests only. *)
Theorem delete_then_undo
    (s : Session) (nodeId : string)
    (Hreach : reachable (store s)) (Hsnap : history (store s) <> []) :
  exists current s1 s2,
    nodes (store s) = Some current /\
    handleDeleteNode s nodeId = Ok s1 /\
    nodes (store s1) = Some (deleteNodeRecursive current nodeId) /\
    findNodeById (deleteNodeRecursive current nodeId) nodeId = None /\
    selectedNode s1 =
      (if selectedHasId (selectedNode s) nodeId then None else selectedNode s) /\
    dispatch s1 UNDO = Ok s2 /\
    nodes (store s2) = Some current /\
    selectedNode s2 = selectedNode s1.
Proof.
  destruct (store_invariant_aux (store s) Hreach) as (_ & Hinv & _).
  destruct (Hinv Hsnap) as [Hv Hn].
  destruct (js_get_valid _ _ Hv) as [current Hc].
  assert (Hcur : nodes (store s) = Some current) by congruence.
  pose proof (undo_after_snapshot (store s)
                (deleteNodeRecursive current nodeId) Hv Hn) as Hundo.
  exists current.
  unfold handleDeleteNode, dispatch at 1. cbn [mindMapReducer]. rewrite Hcur.
  destruct (selectedHasId (selectedNode s) nodeId).
  - eexists _, _. split; [reflexivity|]. split; [reflexivity|].
    split; [reflexivity|].
    split; [apply findNodeById_absent, deleteNodeRecursive_target_gone|].
    split; [reflexivity|].
    unfold dispatch. cbn [store selectedNode drawn]. rewrite Hundo.
    split; [reflexivity|]. split; [exact Hcur|reflexivity].
  - eexists _, _. split; [reflexivity|]. split; [reflexivity|].
    split; [reflexivity|].
    split; [apply findNodeById_absent, deleteNodeRecursive_target_gone|].
    split; [reflexivity|].
    unfold dispatch. cbn [store selectedNode drawn]. rewrite Hundo.
    split; [reflexivity|]. split; [exact Hcur|reflexivity].
Qed.

Lemma delete_then_undo_witness :
  exists s1 s2,
    handleDeleteNode (mkSession sampleState (Some sampleA) 0) "A" = Ok s1 /\
    selectedNode s1 = None /\
    dispatch s1 UNDO = Ok s2 /\
    nodes (store s2) = Some sampleForest /\
    selectedNode s2 = None.
Proof.
  assert (Hsnap : history (store (mkSession sampleState (Some sampleA) 0)) <> [])
    by discriminate.
  destruct (delete_then_undo (mkSession sampleState (Some sampleA) 0) "A"
              sampleState_reachable Hsnap)
    as (current & s1 & s2 & Hc & H1 & _ & _ & Hsel & Hu & Hn & Hsel2).
  injection Hc as <-.
  exists s1, s2. repeat split; try assumption.
  rewrite Hsel2. exact Hsel.
Defined.
